(** * Hewo-Kitteh: the sprite animation model of [main.js]

    A shallow embedding of the animation logic of [main.js]: the frame
    resolver ([buildFramesFromRow]), the normaliser ([normalizeAnimations]),
    the top-level validation ([validateAnimations]), the selection
    controller ([setAnimation], the start-up choice of [init]) and the
    playback clock (the [while] loop of [draw]).

    Modelling choices.
    - A JavaScript number is an exact rational or one of the three
      non-finite values; binary64 rounding and the sign of zero are not
      modelled.
    - A JavaScript value is a JSON value or [undefined].  An object is an
      association list in property order; only own properties are modelled
      (no prototype chain), and the engine's reordering of keys that look
      like array indices is not modelled.
    - Strings are Rocq strings; upper-casing is modelled on ASCII letters.
    - The conversions the language performs on strings and on non-primitive
      values ([ToNumber] of a string, [ToString] of a value) are parameters
      of the model: the program never relies on them for well-typed configs.
    - The network is left out.  The page is modelled apart from the
      playback state: the buttons of the controls, the status line and the
      arguments of the [drawImage] call.  Exceptions are returned as
      values. *)

From Stdlib Require Import ZArith QArith Qround Lqa Lia List String Ascii Bool.
From Stdlib Require Import DecimalString.
From Stdlib Require DecimalFacts DecimalNat.
Import ListNotations.

Set Implicit Arguments.
Set Warnings "-register-all".
Open Scope string_scope.
Open Scope list_scope.

(** ** Numbers *)

Inductive number : Type :=
| Finite (q : Q)
| PosInf
| NegInf
| NaN.

Definition num_of_Z (z : Z) : number := Finite (inject_Z z).
Definition num_of_nat (n : nat) : number := num_of_Z (Z.of_nat n).

Definition num_isFinite (n : number) : bool :=
  match n with Finite _ => true | _ => false end.

Definition q_is_integer (q : Q) : bool := Qeq_bool (inject_Z (Qfloor q)) q.

Definition num_isInteger (n : number) : bool :=
  match n with Finite q => q_is_integer q | _ => false end.

Definition q_is_zero (q : Q) : bool := Qeq_bool q 0.

Definition num_neg (n : number) : number :=
  match n with
  | Finite q => Finite (- q)
  | PosInf => NegInf
  | NegInf => PosInf
  | NaN => NaN
  end.

Definition num_add (a b : number) : number :=
  match a, b with
  | NaN, _ => NaN
  | _, NaN => NaN
  | Finite x, Finite y => Finite (x + y)
  | PosInf, NegInf => NaN
  | NegInf, PosInf => NaN
  | PosInf, _ => PosInf
  | NegInf, _ => NegInf
  | Finite _, PosInf => PosInf
  | Finite _, NegInf => NegInf
  end.

Definition num_sub (a b : number) : number := num_add a (num_neg b).

(** The sign of a number that is not [NaN]: [Lt] negative, [Eq] zero. *)
Definition num_sign (n : number) : comparison :=
  match n with
  | Finite q => (q ?= 0)%Q
  | PosInf => Gt
  | NegInf => Lt
  | NaN => Eq
  end.

Definition num_mul (a b : number) : number :=
  match a, b with
  | NaN, _ => NaN
  | _, NaN => NaN
  | Finite x, Finite y => Finite (x * y)
  | _, _ =>
      match num_sign a, num_sign b with
      | Eq, _ | _, Eq => NaN
      | Lt, Lt | Gt, Gt => PosInf
      | _, _ => NegInf
      end
  end.

(** Rounding towards zero, as the remainder operator does. *)
Definition Qtrunc (q : Q) : Z :=
  if Qle_bool 0 q then Qfloor q else Qceiling q.

(** The remainder operator [%]: the result has the sign of the dividend. *)
Definition num_rem (a b : number) : number :=
  match a, b with
  | Finite x, Finite y =>
      if q_is_zero y then NaN
      else Finite (x - y * inject_Z (Qtrunc (x / y)))
  | Finite x, PosInf => Finite x
  | Finite x, NegInf => Finite x
  | _, _ => NaN
  end.


Definition num_compare (a b : number) : option comparison :=
  match a, b with
  | NaN, _ => None
  | _, NaN => None
  | Finite x, Finite y => Some (x ?= y)%Q
  | PosInf, PosInf => Some Eq
  | NegInf, NegInf => Some Eq
  | NegInf, _ => Some Lt
  | _, PosInf => Some Lt
  | PosInf, _ => Some Gt
  | _, NegInf => Some Gt
  end.

Definition num_ltb (a b : number) : bool :=
  match num_compare a b with Some Lt => true | _ => false end.
Definition num_leb (a b : number) : bool :=
  match num_compare a b with Some Lt | Some Eq => true | _ => false end.
Definition num_gtb (a b : number) : bool := num_ltb b a.
Definition num_geb (a b : number) : bool := num_leb b a.

(** ** Values *)

Inductive value : Type :=
| VUndefined
| VNull
| VBool (b : bool)
| VNum (n : number)
| VStr (s : string)
| VArr (elems : list value)
| VObj (props : list (string * value)).

Definition vnum (z : Z) : value := VNum (num_of_Z z).

Inductive exn : Type :=
| Error (message : string)
| TypeError.

Inductive result (A : Type) : Type :=
| Ok (a : A)
| Throw (e : exn).
Arguments Ok {A} a.
Arguments Throw {A} e.

Definition bind {A B : Type} (r : result A) (k : A -> result B) : result B :=
  match r with
  | Ok a => k a
  | Throw e => Throw e
  end.

Notation "x <- r ;; k" := (bind r (fun x => k))
  (at level 61, r at next level, right associativity).

Definition truthy (v : value) : bool :=
  match v with
  | VUndefined | VNull => false
  | VBool b => b
  | VNum (Finite q) => negb (q_is_zero q)
  | VNum NaN => false
  | VNum _ => true
  | VStr s => negb (String.eqb s "")
  | VArr _ | VObj _ => true
  end.

Definition nullish (v : value) : bool :=
  match v with VUndefined | VNull => true | _ => false end.

(** [a ?? b]: the right operand is only evaluated when [a] is nullish. *)
Definition coalesce (a : value) (b : result value) : result value :=
  if nullish a then b else Ok a.

(** [a ?? b] when [b] is a value at hand. *)
Definition nullishOr (a b : value) : value := if nullish a then b else a.

(** [a || b] on values. *)
Definition or_else (a b : value) : value := if truthy a then a else b.

Definition typeof (v : value) : string :=
  match v with
  | VUndefined => "undefined"
  | VNull | VArr _ | VObj _ => "object"
  | VBool _ => "boolean"
  | VNum _ => "number"
  | VStr _ => "string"
  end.

Definition Array_isArray (v : value) : bool :=
  match v with VArr _ => true | _ => false end.

Definition Number_isFinite (v : value) : bool :=
  match v with VNum n => num_isFinite n | _ => false end.

Definition Number_isInteger (v : value) : bool :=
  match v with VNum n => num_isInteger n | _ => false end.

(** *** Properties *)

Definition index_key (i : nat) : string :=
  NilZero.string_of_uint (Nat.to_uint i).

Fixpoint indexed {A : Type} (i : nat) (l : list A) : list (string * A) :=
  match l with
  | [] => []
  | x :: l' => (index_key i, x) :: indexed (S i) l'
  end.

Fixpoint chars (s : string) : list value :=
  match s with
  | EmptyString => []
  | String c s' => VStr (String c EmptyString) :: chars s'
  end.

(** The own enumerable string-keyed properties of a value, in order. *)
Definition entries (v : value) : list (string * value) :=
  match v with
  | VObj props => props
  | VArr l => indexed 0 l
  | VStr s => indexed 0 (chars s)
  | _ => []
  end.

Fixpoint assoc {A : Type} (k : string) (l : list (string * A)) : option A :=
  match l with
  | [] => None
  | (k', v) :: l' => if String.eqb k k' then Some v else assoc k l'
  end.

(** Reading property [k] of a value that is neither [null] nor [undefined]. *)
Definition prop (v : value) (k : string) : value :=
  match assoc k (entries v) with
  | Some x => x
  | None =>
      if String.eqb k "length" then
        match v with
        | VArr l => VNum (num_of_nat (List.length l))
        | VStr s => VNum (num_of_nat (String.length s))
        | _ => VUndefined
        end
      else VUndefined
  end.

(** [v.k]: a [TypeError] on [null] and [undefined]. *)
Definition get (v : value) (k : string) : result value :=
  if nullish v then Throw TypeError else Ok (prop v k).

(** [o[k] = v] on the property list of an object: an existing key keeps
    its place, a new key goes last. *)
Fixpoint set_prop (k : string) (v : value) (o : list (string * value))
  : list (string * value) :=
  match o with
  | [] => [(k, v)]
  | (k', v') :: o' =>
      if String.eqb k k' then (k, v) :: o' else (k', v') :: set_prop k v o'
  end.

(** [{...o, ...more}] *)
Definition spread (o more : list (string * value)) : list (string * value) :=
  fold_left (fun acc kv => set_prop (fst kv) (snd kv) acc) more o.

Definition Object_entries (v : value) : result (list (string * value)) :=
  if nullish v then Throw TypeError else Ok (entries v).

Definition Object_keys (v : value) : result (list string) :=
  es <- Object_entries v ;; Ok (map fst es).

(** *** String helpers *)

Definition charAt0 (s : string) : string :=
  match s with
  | EmptyString => EmptyString
  | String c _ => String c EmptyString
  end.

Definition slice1 (s : string) : string :=
  match s with
  | EmptyString => EmptyString
  | String _ s' => s'
  end.

Definition upper_ascii (c : ascii) : ascii :=
  let n := nat_of_ascii c in
  if (97 <=? n)%nat && (n <=? 122)%nat then ascii_of_nat (n - 32) else c.

Fixpoint toUpperCase (s : string) : string :=
  match s with
  | EmptyString => EmptyString
  | String c s' => String (upper_ascii c) (toUpperCase s')
  end.

(** ** Example configs *)

Definition rect32 : value :=
  VObj [("x", vnum 0); ("y", vnum 0); ("w", vnum 32); ("h", vnum 32)].





(** [{row: 0, frameCount: 4, frameDurationMs: 100}] *)
Definition walkAnimation : value :=
  VObj [("row", vnum 0); ("frameCount", vnum 4); ("frameDurationMs", vnum 100)].

Definition walkConfig : value :=
  VObj [("animations", VObj [("walk", walkAnimation)])].


(** [{row: 0, frameCount: 0}] and [{row: 0.5, frameCount: 2}] *)
Definition zeroCountAnimation : value :=
  VObj [("row", vnum 0); ("frameCount", vnum 0)].
Definition halfRowAnimation : value :=
  VObj [("row", VNum (Finite (1 # 2))); ("frameCount", vnum 2)].

Definition zeroCountConfig : value :=
  VObj [("animations", VObj [("run", VObj [("frames", VArr [rect32])]);
                             ("bad", zeroCountAnimation)])].

(** [{animations: {"": {frames: [...]}}}]: one animation, named by the
    empty string. *)
Definition emptyKeyConfig : value :=
  VObj [("animations", VObj [("", VObj [("frames", VArr [rect32])])])].

(** [{defaultAnimation: "idle", animations: {walk: ..., idle: ...}}] *)
Definition idleWalkConfig : value :=
  VObj [("defaultAnimation", VStr "idle");
        ("animations", VObj [("walk", walkAnimation);
                             ("idle", VObj [("frames", VArr [rect32])])])].

(** The same two animations, without [defaultAnimation]. *)
Definition walkIdleConfig : value :=
  VObj [("animations", VObj [("walk", walkAnimation);
                             ("idle", VObj [("frames", VArr [rect32])])])].

(** A frame without width, and a config that holds it. *)
Definition flatRect : value :=
  VObj [("x", vnum 0); ("y", vnum 0); ("w", vnum 0); ("h", vnum 32)].

Definition flatFrameConfig : value :=
  VObj [("animations", VObj [("run", VObj [("frames", VArr [flatRect])])])].

(** An instance of the two conversions the model leaves abstract, for the
    examples: none of them converts a string or an object. *)
Definition noStringToNumber (_ : string) : number := NaN.
Definition noToStringValue (_ : value) : string := "".

(** ** The program *)

Section Program.

(** [ToNumber] on strings and [ToString] on values that are not strings:
    the two conversions of the language that the model leaves abstract. *)
Variable StringToNumber : string -> number.
Variable ToStringValue : value -> string.

Definition ToString (v : value) : string :=
  match v with VStr s => s | _ => ToStringValue v end.

Definition ToPrimitive (v : value) : value :=
  match v with
  | VArr _ | VObj _ => VStr (ToStringValue v)
  | _ => v
  end.

Definition ToNumber (v : value) : number :=
  match v with
  | VUndefined => NaN
  | VNull => num_of_Z 0
  | VBool b => num_of_Z (if b then 1 else 0)
  | VNum n => n
  | VStr s => StringToNumber s
  | VArr _ | VObj _ => StringToNumber (ToStringValue v)
  end.

Definition is_string (v : value) : bool :=
  match v with VStr _ => true | _ => false end.

(** [a + b]: concatenation as soon as one operand is a string (or an
    object, which converts to one), numeric addition otherwise. *)
Definition js_add (a b : value) : value :=
  let pa := ToPrimitive a in
  let pb := ToPrimitive b in
  if is_string pa || is_string pb
  then VStr (ToString pa ++ ToString pb)
  else VNum (num_add (ToNumber pa) (ToNumber pb)).

Definition js_mul (a b : value) : value :=
  VNum (num_mul (ToNumber a) (ToNumber b)).

(** The relational operators, for the case of the program: one of the two
    operands is a number, so the comparison is numeric. *)
Definition js_lt (a b : value) : bool := num_ltb (ToNumber a) (ToNumber b).
Definition js_le (a b : value) : bool := num_leb (ToNumber a) (ToNumber b).
Definition js_gt (a b : value) : bool := num_gtb (ToNumber a) (ToNumber b).
Definition js_ge (a b : value) : bool := num_geb (ToNumber a) (ToNumber b).

(** The property key a value is converted to in [o[v]]. *)
Definition ToPropertyKey (v : value) : string :=
  match v with
  | VNum (Finite q) =>
      if q_is_integer q && Qle_bool 0 q
      then index_key (Z.to_nat (Qfloor q))
      else ToStringValue v
  | _ => ToString v
  end.

(** [o[k]] *)
Definition get_at (o k : value) : result value := get o (ToPropertyKey k).

(** *** isValidFrame *)

Definition isValidFrame (frame : value) : bool :=
  truthy frame &&
  Number_isFinite (prop frame "x") &&
  Number_isFinite (prop frame "y") &&
  Number_isFinite (prop frame "w") &&
  Number_isFinite (prop frame "h") &&
  js_gt (prop frame "w") (vnum 0) &&
  js_gt (prop frame "h") (vnum 0).

(** *** buildFramesFromRow *)

(** The length [Array.from({ length: v }, ...)] gives the array, for a
    number that passed [Number.isInteger]. *)
Definition ToLength (v : value) : nat :=
  match v with
  | VNum (Finite q) => Z.to_nat (Qfloor q)
  | _ => 0
  end.

Definition Array_from (len : nat) (f : value -> value) : list value :=
  map (fun i => f (VNum (num_of_nat i))) (seq 0 len).

Definition buildFramesFromRow (animation defaults : value) : result value :=
  frameWidth <-
    (a <- get animation "frameWidth" ;; coalesce a (get defaults "frameWidth")) ;;
  frameHeight <-
    (a <- get animation "frameHeight" ;; coalesce a (get defaults "frameHeight")) ;;
  startCol <- (a <- get animation "startCol" ;; coalesce a (Ok (vnum 0))) ;;
  frameCount <- get animation "frameCount" ;;
  row <- get animation "row" ;;
  if negb (Number_isInteger row) ||
     negb (Number_isInteger frameCount) ||
     js_lt frameCount (vnum 1) ||
     negb (Number_isFinite frameWidth) ||
     negb (Number_isFinite frameHeight) ||
     js_le frameWidth (vnum 0) ||
     js_le frameHeight (vnum 0)
  then Ok VNull
  else
    sheetOffsetX <-
      (a <- get animation "sheetOffsetX" ;;
       d <- coalesce a (get defaults "sheetOffsetX") ;;
       coalesce d (Ok (vnum 0))) ;;
    sheetOffsetY <-
      (a <- get animation "sheetOffsetY" ;;
       d <- coalesce a (get defaults "sheetOffsetY") ;;
       coalesce d (Ok (vnum 0))) ;;
    Ok (VArr (Array_from (ToLength frameCount) (fun index =>
      VObj [ ("x", js_add sheetOffsetX (js_mul (js_add startCol index) frameWidth));
             ("y", js_add sheetOffsetY (js_mul row frameHeight));
             ("w", frameWidth);
             ("h", frameHeight) ]))).

(** *** normalizeAnimations *)

Definition baseDefaults : list (string * value) :=
  [ ("frameDurationMs", vnum 120);
    ("scale", vnum 4);
    ("frameWidth", vnum 32);
    ("frameHeight", vnum 32);
    ("sheetOffsetX", vnum 0);
    ("sheetOffsetY", vnum 0) ].

(** The [defaults] constant of [normalizeAnimations], from [data.defaults]. *)
Definition mergedDefaults (supplied : value) : value :=
  VObj (spread baseDefaults (entries (or_else supplied (VObj [])))).

Definition fallbackLabel (name : string) : string :=
  (toUpperCase (charAt0 name) ++ slice1 name)%string.

Definition resolveFrames (animation defaults : value) : result value :=
  frames <- get animation "frames" ;;
  if Array_isArray frames then Ok frames
  else buildFramesFromRow animation defaults.

Definition needsFramesMessage (name : string) : string :=
  ("Animation '" ++ name ++
   "' needs either a non-empty 'frames' array or valid row/frameCount data.")%string.

Definition invalidFrameMessage (name : string) : string :=
  ("Animation '" ++ name ++ "' has invalid frame data.")%string.

(** The body of the [for] loop: the entry stored under [name]. *)
Definition normalizeEntry (name : string) (animation defaults : value)
  : result value :=
  resolvedFrames <- resolveFrames animation defaults ;;
  match resolvedFrames with
  | VArr ((_ :: _) as frames) =>
      if negb (forallb isValidFrame frames)
      then Throw (Error (invalidFrameMessage name))
      else
        label <- (a <- get animation "label" ;;
                  coalesce a (Ok (VStr (fallbackLabel name)))) ;;
        frameDurationMs <- (a <- get animation "frameDurationMs" ;;
                            coalesce a (get defaults "frameDurationMs")) ;;
        scale <- (a <- get animation "scale" ;;
                  coalesce a (get defaults "scale")) ;;
        Ok (VObj [ ("label", label);
                   ("frameDurationMs", frameDurationMs);
                   ("scale", scale);
                   ("frames", resolvedFrames) ])
  | _ => Throw (Error (needsFramesMessage name))
  end.

(** The [for] loop over [Object.entries(data.animations)]; [table] is the
    property list of [normalized.animations]. *)
Fixpoint normalizeEach (es : list (string * value)) (defaults : value)
  (table : list (string * value)) : result (list (string * value)) :=
  match es with
  | [] => Ok table
  | (name, animation) :: es' =>
      entry <- normalizeEntry name animation defaults ;;
      normalizeEach es' defaults (set_prop name entry table)
  end.

Definition normalizeAnimations (data : value) : result value :=
  supplied <- get data "defaults" ;;
  let defaults := mergedDefaults supplied in
  let normalized :=
    set_prop "animations" (VObj [])
      (set_prop "defaults" defaults (spread [] (entries data))) in
  animations <- get data "animations" ;;
  es <- Object_entries animations ;;
  table <- normalizeEach es defaults [] ;;
  Ok (VObj (set_prop "animations" (VObj table) normalized)).

(** *** validateAnimations *)

Definition validateAnimations (data : value) : result unit :=
  if negb (truthy data) || negb (String.eqb (typeof data) "object")
  then Throw (Error "Animation JSON must be an object.")
  else if negb (truthy (prop data "animations")) ||
          negb (String.eqb (typeof (prop data "animations")) "object")
  then Throw (Error "Animation JSON needs an 'animations' object.")
  else if negb (String.eqb (typeof (prop data "defaults")) "undefined") &&
          negb (String.eqb (typeof (prop data "defaults")) "object")
  then Throw (Error "If provided, 'defaults' must be an object.")
  else Ok tt.

(** *** The playback state *)

(** The [state] object, without the sprite sheet. *)
Record State : Type := mkState {
  animations : value;
  activeAnimationKey : value;
  frameIndex : number;
  frameTimerMs : number;
  lastTimestamp : number
}.

Definition initialState : State :=
  {| animations := VNull;
     activeAnimationKey := VNull;
     frameIndex := num_of_Z 0;
     frameTimerMs := num_of_Z 0;
     lastTimestamp := num_of_Z 0 |}.

(** *** setAnimation

    The button highlight and the status line that follow the three
    assignments only touch the page. *)
Definition setAnimation (key : value) (st : State) : result State :=
  if negb (truthy (animations st)) then Ok st
  else
    table <- get (animations st) "animations" ;;
    entry <- get_at table key ;;
    if negb (truthy entry) then Ok st
    else
      Ok {| animations := animations st;
            activeAnimationKey := key;
            frameIndex := num_of_Z 0;
            frameTimerMs := num_of_Z 0;
            lastTimestamp := lastTimestamp st |}.

(** *** draw *)

Definition getCurrentFrame (animation : value) (st : State) : result value :=
  frames <- get animation "frames" ;;
  len <- get frames "length" ;;
  if negb (truthy len) then Ok VNull
  else get_at frames (VNum (num_rem (frameIndex st) (ToNumber len))).

(** The [while] loop of [draw].  [None]: the loop is still running when
    the fuel is used up. *)
Fixpoint advanceFrames (fuel : nat) (animation frameDurationMs : value)
  (st : State) : option (result State) :=
  if js_ge (VNum (frameTimerMs st)) frameDurationMs then
    match fuel with
    | O => None
    | S fuel' =>
        match (frames <- get animation "frames" ;; get frames "length") with
        | Throw e => Some (Throw e)
        | Ok len =>
            advanceFrames fuel' animation frameDurationMs
              {| animations := animations st;
                 activeAnimationKey := activeAnimationKey st;
                 frameIndex :=
                   num_rem (num_add (frameIndex st) (num_of_Z 1)) (ToNumber len);
                 frameTimerMs :=
                   num_sub (frameTimerMs st) (ToNumber frameDurationMs);
                 lastTimestamp := lastTimestamp st |}
        end
    end
  else Some (Ok st).

(** [state.animations.animations[state.activeAnimationKey]] *)
Definition activeAnimation (st : State) : result value :=
  table <- get (animations st) "animations" ;;
  get_at table (activeAnimationKey st).

(** [draw], with a drawing context, up to the choice of the frame to
    paint: painting writes to the canvas only.  An exception ends the
    render loop, the state it leaves is not tracked. *)
Definition draw (fuel : nat) (deltaMs : number) (st : State)
  : option (result State) :=
  match activeAnimation st with
  | Throw e => Some (Throw e)
  | Ok animation =>
      if negb (truthy animation) then Some (Ok st)
      else
        match (a <- get animation "frameDurationMs" ;;
               coalesce a (d <- get (animations st) "defaults" ;;
                           get d "frameDurationMs")) with
        | Throw e => Some (Throw e)
        | Ok frameDurationMs =>
            match advanceFrames fuel animation frameDurationMs
                    {| animations := animations st;
                       activeAnimationKey := activeAnimationKey st;
                       frameIndex := frameIndex st;
                       frameTimerMs := num_add (frameTimerMs st) deltaMs;
                       lastTimestamp := lastTimestamp st |} with
            | Some (Ok st') =>
                match getCurrentFrame animation st' with
                | Throw e => Some (Throw e)
                | Ok _ => Some (Ok st')
                end
            | r => r
            end
        end
  end.


(** *** init *)

(** The [startAnimation] constant of [init]. *)
Definition startAnimation (table : value) : result value :=
  defaultAnimation <- get table "defaultAnimation" ;;
  anims <- get table "animations" ;;
  named <- (if truthy defaultAnimation then get_at anims defaultAnimation
            else Ok defaultAnimation) ;;
  if truthy named then Ok defaultAnimation
  else
    keys <- Object_keys anims ;;
    Ok (match keys with
        | [] => VUndefined
        | k :: _ => VStr k
        end).

(** The [try] block of [init] once the sheet and the JSON are loaded.
    [Ok tt]: the render loop is started; [Throw e]: the error is caught
    and reported, the loop is not started. *)
Definition init (data : value) (st : State) : State * result unit :=
  match validateAnimations data with
  | Throw e => (st, Throw e)
  | Ok _ =>
      match normalizeAnimations data with
      | Throw e => (st, Throw e)
      | Ok table =>
          let st1 := {| animations := table;
                        activeAnimationKey := activeAnimationKey st;
                        frameIndex := frameIndex st;
                        frameTimerMs := frameTimerMs st;
                        lastTimestamp := lastTimestamp st |} in
          match startAnimation table with
          | Throw e => (st1, Throw e)
          | Ok start =>
              if negb (truthy start)
              then (st1, Throw (Error "No animations found in JSON."))
              else
                match setAnimation start st1 with
                | Throw e => (st1, Throw e)
                | Ok st2 => (st2, Ok tt)
                end
          end
      end
  end.

(** ** Specification vocabulary *)

(** A value that is a finite number with an integral value. *)
Definition IntegerValue (v : value) (z : Z) : Prop :=
  exists q : Q, v = VNum (Finite q) /\ (q == inject_Z z)%Q.

(** A value that is the finite number [q]. *)
Definition FiniteValue (v : value) (q : Q) : Prop := v = VNum (Finite q).

(** The frame width and height a grid animation resolves to. *)
Definition gridWidth (animation defaults : value) : value :=
  nullishOr (prop animation "frameWidth") (prop defaults "frameWidth").
Definition gridHeight (animation defaults : value) : value :=
  nullishOr (prop animation "frameHeight") (prop defaults "frameHeight").
Definition gridStartCol (animation : value) : value :=
  nullishOr (prop animation "startCol") (vnum 0).
Definition gridOffsetX (animation defaults : value) : value :=
  nullishOr (nullishOr (prop animation "sheetOffsetX")
                       (prop defaults "sheetOffsetX")) (vnum 0).
Definition gridOffsetY (animation defaults : value) : value :=
  nullishOr (nullishOr (prop animation "sheetOffsetY")
                       (prop defaults "sheetOffsetY")) (vnum 0).

(** The validation rules of the frame resolver: [row] and [frameCount]
    integers, [frameCount >= 1], width and height finite and positive. *)
Definition ValidGrid (animation defaults : value) : Prop :=
  (exists r : Z, IntegerValue (prop animation "row") r) /\
  (exists n : Z, IntegerValue (prop animation "frameCount") n /\ (1 <= n)%Z) /\
  (exists w : Q, FiniteValue (gridWidth animation defaults) w /\ (0 < w)%Q) /\
  (exists h : Q, FiniteValue (gridHeight animation defaults) h /\ (0 < h)%Q).

(** The animations of a config, as [Object.entries] lists them. *)
Definition configAnimations (data : value) : list (string * value) :=
  entries (prop data "animations").

(** The entry of a table under a key, when there is one. *)
Definition tableEntry (table : value) (key : string) : option value :=
  assoc key (entries (prop table "animations")).

(** One step of the frame index: [(i + 1) % n]. *)
Definition nextIndex (n : nat) (i : number) : number :=
  num_rem (num_add i (num_of_Z 1)) (num_of_nat n).

(** A run of the render loop: one [draw] per elapsed time, each one
    returning normally. *)
Inductive advances : State -> list number -> State -> Prop :=
| advances_nil : forall st, advances st [] st
| advances_cons : forall st fuel deltaMs st1 deltas st2,
    draw fuel deltaMs st = Some (Ok st1) ->
    advances st1 deltas st2 ->
    advances st (deltaMs :: deltas) st2.

(** A finite, non-negative elapsed time. *)
Definition elapsed (deltaMs : number) : Prop :=
  exists e : Q, deltaMs = Finite e /\ (0 <= e)%Q.

(** Enough iterations to bring a timer [t] below a positive duration [d]. *)
Definition enoughFuel (t d : Q) : nat := Z.to_nat (Qfloor (t / d)).

(** A frame index that is an integer of [0 .. n-1]. *)
Definition FrameIndexInRange (i : number) (n : nat) : Prop :=
  exists z : Z, IntegerValue (VNum i) z /\ (0 <= z < Z.of_nat n)%Z.



(** The state [setAnimation] leaves when it selects [key]. *)
Definition selected (key : value) (st : State) : State :=
  {| animations := animations st;
     activeAnimationKey := key;
     frameIndex := num_of_Z 0;
     frameTimerMs := num_of_Z 0;
     lastTimestamp := lastTimestamp st |}.

(** The test of [buildFramesFromRow], on the resolved width and height:
    [true] when the grid parameters are refused. *)
Definition gridRefused (animation defaults : value) : bool :=
  negb (Number_isInteger (prop animation "row")) ||
  negb (Number_isInteger (prop animation "frameCount")) ||
  js_lt (prop animation "frameCount") (vnum 1) ||
  negb (Number_isFinite (gridWidth animation defaults)) ||
  negb (Number_isFinite (gridHeight animation defaults)) ||
  js_le (gridWidth animation defaults) (vnum 0) ||
  js_le (gridHeight animation defaults) (vnum 0).

(** The rectangle of column [index] of a grid animation. *)
Definition gridFrame (animation defaults index : value) : value :=
  VObj [ ("x", js_add (gridOffsetX animation defaults)
                 (js_mul (js_add (gridStartCol animation) index)
                         (gridWidth animation defaults)));
         ("y", js_add (gridOffsetY animation defaults)
                 (js_mul (prop animation "row") (gridHeight animation defaults)));
         ("w", gridWidth animation defaults);
         ("h", gridHeight animation defaults) ].



(** A text that contains [name]. *)
Definition mentions (message name : string) : Prop :=
  exists before after : string, message = (before ++ name ++ after)%string.

(** A rectangle of the sheet: finite [x], [y], [w], [h], with [w] and [h]
    positive. *)
Definition ValidRect (frame : value) : Prop :=
  exists x y w h : Q,
    prop frame "x" = VNum (Finite x) /\
    prop frame "y" = VNum (Finite y) /\
    prop frame "w" = VNum (Finite w) /\
    prop frame "h" = VNum (Finite h) /\
    (0 < w)%Q /\ (0 < h)%Q.

(** The keys of a property list. *)
Definition keys (o : list (string * value)) : list string := map fst o.

(** An object or an array: what [typeof] calls ["object"], [null] apart. *)
Definition ObjectLike (v : value) : Prop :=
  (exists o, v = VObj o) \/ (exists a, v = VArr a).



(** ** The page: the controls and the status line

    The part of the program that writes to the page, on a model of the
    page: the buttons of [#controls], each with its text, its
    [data-animation] and whether it has the class [is-active], and the
    text of [#status].  Both elements are present, as [init] requires. *)

Record Button : Type := mkButton {
  textContent : string;
  datasetAnimation : string;
  isActive : bool
}.

Record Page : Type := mkPage {
  controls : list Button;
  status : string
}.


(** [makeButton]: the class is [control-btn] alone. *)
Definition makeButton (label : value) (key : string) : Button :=
  {| textContent := ToString label;
     datasetAnimation := key;
     isActive := false |}.



(** The [for] loop of [buildControls]. *)
Fixpoint makeButtons (es : list (string * value)) : result (list Button) :=
  match es with
  | [] => Ok []
  | (key, animation) :: es' =>
      label <- get animation "label" ;;
      buttons <- makeButtons es' ;;
      Ok (makeButton (or_else label (VStr key)) key :: buttons)
  end.

Definition buildControls (st : State) (page : Page) : result Page :=
  table <- get (animations st) "animations" ;;
  es <- Object_entries table ;;
  buttons <- makeButtons es ;;
  Ok {| controls := buttons; status := status page |}.


(** ** The picture: what [draw] paints

    The arguments of the [drawImage] call of [draw], for a canvas of the
    given size; [None] when [draw] returns without painting. *)




Unset Implicit Arguments.

(** ** Facts about numbers *)

Lemma num_leb_Finite (a b : Q) :
  num_leb (Finite a) (Finite b) = true <-> (a <= b)%Q.
Proof.
  unfold num_leb; simpl. rewrite Qle_alt.
  destruct (a ?= b)%Q; split; intros; try reflexivity; try discriminate;
    congruence.
Qed.

Lemma num_ltb_Finite (a b : Q) :
  num_ltb (Finite a) (Finite b) = true <-> (a < b)%Q.
Proof.
  unfold num_ltb; simpl. rewrite Qlt_alt.
  destruct (a ?= b)%Q; split; intros; try reflexivity; try discriminate;
    congruence.
Qed.

Lemma num_leb_Finite_false (a b : Q) :
  num_leb (Finite a) (Finite b) = false <-> (b < a)%Q.
Proof.
  split; intros H.
  - apply Qnot_le_lt. intros Hle. apply num_leb_Finite in Hle. congruence.
  - destruct (num_leb (Finite a) (Finite b)) eqn:E; [|reflexivity].
    apply num_leb_Finite in E. lra.
Qed.

Lemma num_ltb_Finite_false (a b : Q) :
  num_ltb (Finite a) (Finite b) = false <-> (b <= a)%Q.
Proof.
  split; intros H.
  - apply Qnot_lt_le. intros Hlt. apply num_ltb_Finite in Hlt. congruence.
  - destruct (num_ltb (Finite a) (Finite b)) eqn:E; [|reflexivity].
    apply num_ltb_Finite in E. lra.
Qed.

Lemma q_is_integer_spec (q : Q) :
  q_is_integer q = true <-> exists z : Z, (q == inject_Z z)%Q.
Proof.
  unfold q_is_integer. rewrite Qeq_bool_iff. split.
  - intros H. exists (Qfloor q). symmetry. exact H.
  - intros [z Hz]. rewrite (Qfloor_comp _ _ Hz), Qfloor_Z. symmetry. exact Hz.
Qed.

Lemma q_is_zero_spec (q : Q) : q_is_zero q = true <-> (q == 0)%Q.
Proof. unfold q_is_zero. apply Qeq_bool_iff. Qed.

Lemma q_is_zero_false (q : Q) : ~ (q == 0)%Q -> q_is_zero q = false.
Proof.
  intros H. destruct (q_is_zero q) eqn:E; [|reflexivity].
  apply q_is_zero_spec in E. contradiction.
Qed.

Lemma Number_isInteger_spec (v : value) :
  Number_isInteger v = true <-> exists z : Z, IntegerValue v z.
Proof.
  unfold IntegerValue. split.
  - destruct v as [| | |n| | |]; try discriminate.
    destruct n as [q| | |]; try discriminate. simpl.
    intros H. apply q_is_integer_spec in H. destruct H as [z Hz].
    exists z, q. split; [reflexivity|exact Hz].
  - intros [z [q [-> Hq]]]. simpl. apply q_is_integer_spec. exists z. exact Hq.
Qed.

Lemma Number_isFinite_spec (v : value) :
  Number_isFinite v = true <-> exists q : Q, FiniteValue v q.
Proof.
  unfold FiniteValue. split.
  - destruct v as [| | |n| | |]; try discriminate.
    destruct n as [q| | |]; try discriminate. intros _. exists q. reflexivity.
  - intros [q ->]. reflexivity.
Qed.


Lemma enoughFuel_bound (t d : Q) :
  (0 < d)%Q -> (t < inject_Z (Z.of_nat (S (enoughFuel t d))) * d)%Q.
Proof.
  intros Hd. unfold enoughFuel.
  assert (Hlt : (t / d < inject_Z (Z.of_nat (S (Z.to_nat (Qfloor (t / d))))))%Q).
  { eapply Qlt_le_trans; [apply Qlt_floor|].
    rewrite <- Zle_Qle. lia. }
  apply Qmult_lt_compat_r with (z := d) in Hlt; [|exact Hd].
  assert (E : (t / d * d == t)%Q) by (field; lra).
  rewrite E in Hlt. exact Hlt.
Qed.

(** ** Facts about properties *)

Lemma index_key_not_length (i : nat) : String.eqb "length" (index_key i) = false.
Proof.
  unfold index_key, NilZero.string_of_uint.
  destruct (Nat.to_uint i); reflexivity.
Qed.

Lemma assoc_length_indexed (A : Type) (l : list A) (i : nat) :
  assoc "length" (indexed i l) = None.
Proof.
  revert i. induction l as [|x l IH]; intros i; cbn [indexed assoc].
  - reflexivity.
  - rewrite index_key_not_length. apply IH.
Qed.

Lemma prop_length_array (l : list value) :
  prop (VArr l) "length" = VNum (num_of_nat (List.length l)).
Proof. unfold prop. simpl. rewrite assoc_length_indexed. reflexivity. Qed.

Lemma prop_nullish (v : value) (k : string) :
  nullish v = true -> prop v k = VUndefined.
Proof.
  destruct v; try discriminate; intros _; unfold prop; simpl;
    destruct (String.eqb k "length"); reflexivity.
Qed.

Lemma prop_defined_not_nullish (v : value) (k : string) :
  prop v k <> VUndefined -> nullish v = false.
Proof.
  intros H. destruct (nullish v) eqn:E; [|reflexivity].
  elim H. apply prop_nullish. exact E.
Qed.

Lemma get_prop (v : value) (k : string) :
  nullish v = false -> get v k = Ok (prop v k).
Proof. intros H. unfold get. rewrite H. reflexivity. Qed.

Lemma coalesce_value (a b : value) : coalesce a (Ok b) = Ok (nullishOr a b).
Proof. unfold coalesce, nullishOr. destruct (nullish a); reflexivity. Qed.

(** ** The loop of [draw] *)

Lemma advanceFrames_runs (animation : value) (l : list value) (d : Q) :
  prop animation "frames" = VArr l ->
  (0 < d)%Q ->
  forall (fuel : nat) (st : State) (t : Q),
    frameTimerMs st = Finite t ->
    (t < inject_Z (Z.of_nat (S fuel)) * d)%Q ->
    exists (k : nat) (st' : State) (t' : Q),
      advanceFrames fuel animation (VNum (Finite d)) st = Some (Ok st') /\
      frameTimerMs st' = Finite t' /\
      (t' == t - inject_Z (Z.of_nat k) * d)%Q /\
      (t' < d)%Q /\
      (k = O \/ (0 <= t')%Q) /\
      frameIndex st' = Nat.iter k (nextIndex (List.length l)) (frameIndex st) /\
      animations st' = animations st /\
      activeAnimationKey st' = activeAnimationKey st /\
      lastTimestamp st' = lastTimestamp st.
Proof.
  intros Hframes Hd.
  assert (Hlen : (frames <- get animation "frames" ;; get frames "length")
                 = Ok (VNum (num_of_nat (List.length l)))).
  { rewrite get_prop by (apply prop_defined_not_nullish with (k := "frames");
                         rewrite Hframes; discriminate).
    simpl. rewrite Hframes. rewrite get_prop by reflexivity.
    rewrite prop_length_array. reflexivity. }
  induction fuel as [|fuel IH]; intros st t Ht Hbound.
  - exists O, st, t.
    assert (Hlt : (t < d)%Q).
    { change (inject_Z (Z.of_nat 1)) with 1%Q in Hbound. lra. }
    cbn [advanceFrames]. unfold js_ge, num_geb. cbn [ToNumber]. rewrite Ht.
    rewrite (proj2 (num_leb_Finite_false d t) Hlt).
    change (inject_Z (Z.of_nat 0)) with 0%Q.
    repeat split; try reflexivity; try assumption; try (now left). lra.
  - destruct (Qlt_le_dec t d) as [Hlt|Hge].
    + exists O, st, t.
      cbn [advanceFrames]. unfold js_ge, num_geb. cbn [ToNumber]. rewrite Ht.
      rewrite (proj2 (num_leb_Finite_false d t) Hlt).
      change (inject_Z (Z.of_nat 0)) with 0%Q.
      repeat split; try reflexivity; try assumption; try (now left). lra.
    + set (st1 := {| animations := animations st;
                     activeAnimationKey := activeAnimationKey st;
                     frameIndex := nextIndex (List.length l) (frameIndex st);
                     frameTimerMs := Finite (t + - d);
                     lastTimestamp := lastTimestamp st |}).
      assert (Hsucc : forall n : nat,
                 (inject_Z (Z.of_nat (S n)) == inject_Z (Z.of_nat n) + 1)%Q).
      { intros n. rewrite Nat2Z.inj_succ. unfold Z.succ.
        rewrite inject_Z_plus. reflexivity. }
      destruct (IH st1 (t + - d)%Q eq_refl)
        as (k & st' & t' & Hrun & Ht' & Heq & Hlt' & Hk & Hidx & Ha & Hkey & Hts).
      { rewrite Hsucc in Hbound |- *. rewrite Hsucc in Hbound. lra. }
      exists (S k), st', t'.
      split.
      { cbn [advanceFrames]. unfold js_ge, num_geb. cbn [ToNumber]. rewrite Ht.
        rewrite (proj2 (num_leb_Finite d t) Hge).
        rewrite Hlen. exact Hrun. }
      split; [exact Ht'|].
      split; [rewrite Heq, Hsucc; lra|].
      split; [exact Hlt'|].
      split.
      { right. destruct Hk as [->|Hk]; [|exact Hk].
        change (inject_Z (Z.of_nat 0)) with 0%Q in Heq. lra. }
      split.
      { rewrite Hidx. cbn [frameIndex st1]. rewrite Nat.iter_succ_r. reflexivity. }
      repeat split; assumption.
Qed.

Lemma assoc_indexed_chars (k : string) (s : string) (i : nat) (x : value) :
  assoc k (indexed i (chars s)) = Some x -> exists c, x = VStr c.
Proof.
  revert i. induction s as [|c s IH]; intros i; cbn [chars indexed assoc].
  - discriminate.
  - destruct (String.eqb k (index_key i)).
    + intros [= <-]. eexists. reflexivity.
    + apply IH.
Qed.

(** A value with an array among its properties is an object or an array. *)
Lemma prop_array_truthy (v : value) (k : string) (l : list value) :
  prop v k = VArr l -> truthy v = true.
Proof.
  destruct v as [| | b | n | s | a | o]; try reflexivity; unfold prop;
    cbn [entries assoc]; try (destruct (String.eqb k "length"); discriminate).
  destruct (assoc k (indexed 0 (chars s))) as [x|] eqn:E.
  - apply assoc_indexed_chars in E. destruct E as [c ->]. discriminate.
  - destruct (String.eqb k "length"); discriminate.
Qed.

Lemma getCurrentFrame_array (animation : value) (l : list value) (st : State) :
  prop animation "frames" = VArr l ->
  exists frame, getCurrentFrame animation st = Ok frame.
Proof.
  intros Hframes. unfold getCurrentFrame.
  rewrite get_prop by (apply prop_defined_not_nullish with (k := "frames");
                       rewrite Hframes; discriminate).
  cbn [bind]. rewrite Hframes. rewrite get_prop by reflexivity.
  cbn [bind]. destruct (negb (truthy (prop (VArr l) "length"))).
  - eexists. reflexivity.
  - unfold get_at. rewrite get_prop by reflexivity. eexists. reflexivity.
Qed.

(** [draw] on an entry with a positive finite duration: the loop ends
    after [k] subtractions, [k] steps of the index, and leaves a timer
    below the duration. *)
Lemma draw_runs (st : State) (animation : value) (l : list value) (d t e : Q) :
  activeAnimation st = Ok animation ->
  prop animation "frameDurationMs" = VNum (Finite d) ->
  prop animation "frames" = VArr l ->
  (0 < d)%Q ->
  frameTimerMs st = Finite t ->
  exists (k : nat) (st' : State) (t' : Q),
    draw (enoughFuel (t + e) d) (Finite e) st = Some (Ok st') /\
    frameTimerMs st' = Finite t' /\
    (t' == t + e - inject_Z (Z.of_nat k) * d)%Q /\
    (t' < d)%Q /\
    (k = O \/ (0 <= t')%Q) /\
    frameIndex st' = Nat.iter k (nextIndex (List.length l)) (frameIndex st) /\
    animations st' = animations st /\
    activeAnimationKey st' = activeAnimationKey st /\
    lastTimestamp st' = lastTimestamp st.
Proof.
  intros Hactive Hd Hframes Hpos Ht.
  pose (st0 := {| animations := animations st;
                  activeAnimationKey := activeAnimationKey st;
                  frameIndex := frameIndex st;
                  frameTimerMs := Finite (t + e);
                  lastTimestamp := lastTimestamp st |}).
  destruct (@advanceFrames_runs animation l d Hframes Hpos
              (enoughFuel (t + e) d) st0 (t + e)%Q eq_refl
              (@enoughFuel_bound (t + e)%Q d Hpos))
    as (k & st' & t' & Hrun & Ht' & Heq & Hlt & Hk & Hidx & Ha & Hkey & Hts).
  exists k, st', t'. split.
  - unfold draw. rewrite Hactive.
    rewrite (@prop_array_truthy animation _ l Hframes). cbn [negb].
    rewrite get_prop by (apply prop_defined_not_nullish with (k := "frames");
                         rewrite Hframes; discriminate).
    cbn [bind]. rewrite Hd. cbn [coalesce nullish].
    rewrite Ht. cbn [num_add]. fold st0. rewrite Hrun.
    destruct (@getCurrentFrame_array animation l st' Hframes) as [frame ->]. reflexivity.
  - repeat split; assumption.
Qed.

(** ** The frame index *)

Lemma Qfloor_unique (x : Q) (m : Z) :
  (inject_Z m <= x)%Q -> (x < inject_Z (m + 1))%Q -> Qfloor x = m.
Proof.
  intros Hle Hlt.
  assert (H1 : (m <= Qfloor x)%Z).
  { rewrite <- (Qfloor_Z m). apply Qfloor_resp_le. exact Hle. }
  assert (H2 : (Qfloor x < m + 1)%Z).
  { rewrite Zlt_Qlt. eapply Qle_lt_trans; [apply Qfloor_le|exact Hlt]. }
  lia.
Qed.

Lemma Qtrunc_quotient (a b : Q) (m : Z) :
  (0 < b)%Q -> (0 <= m)%Z ->
  (inject_Z m * b <= a)%Q -> (a < inject_Z (m + 1) * b)%Q ->
  Qtrunc (a / b) = m.
Proof.
  intros Hb Hm Hle Hlt.
  assert (Hlo : (inject_Z m <= a / b)%Q) by (apply Qle_shift_div_l; assumption).
  assert (Hhi : (a / b < inject_Z (m + 1))%Q) by (apply Qlt_shift_div_r; assumption).
  unfold Qtrunc.
  assert (H0 : (0 <= a / b)%Q).
  { eapply Qle_trans; [|exact Hlo]. change 0%Q with (inject_Z 0).
    rewrite <- Zle_Qle. exact Hm. }
  apply Qle_bool_iff in H0. rewrite H0.
  apply Qfloor_unique; assumption.
Qed.

Lemma nextIndex_value (n : nat) (i : number) (z : Z) :
  IntegerValue (VNum i) z ->
  (0 <= z < Z.of_nat n)%Z ->
  IntegerValue (VNum (nextIndex n i)) ((z + 1) mod Z.of_nat n).
Proof.
  intros (q & Hq & Hz) Hr. injection Hq as ->.
  unfold nextIndex, num_of_nat, num_of_Z. cbn [num_add num_rem].
  assert (Hnpos : (0 < inject_Z (Z.of_nat n))%Q).
  { change 0%Q with (inject_Z 0). rewrite <- Zlt_Qlt. lia. }
  rewrite q_is_zero_false by lra.
  assert (Hn' : (inject_Z (z + 1) <= inject_Z (Z.of_nat n))%Q)
    by (rewrite <- Zle_Qle; lia).
  rewrite inject_Z_plus in Hn'.
  destruct (Z.eq_dec (z + 1) (Z.of_nat n)) as [Heq|Hne].
  - rewrite Heq, Z_mod_same_full.
    eexists. split; [reflexivity|].
    assert (Hq1 : (q + inject_Z 1 == inject_Z (Z.of_nat n))%Q).
    { rewrite <- Heq, inject_Z_plus, Hz. reflexivity. }
    rewrite (Qtrunc_quotient (q + inject_Z 1) (inject_Z (Z.of_nat n)) 1);
      try lia; try assumption.
    + change (inject_Z 1) with 1%Q in *. change (inject_Z 0) with 0%Q. lra.
    + change (inject_Z 1) with 1%Q in *. lra.
    + change (inject_Z (1 + 1)) with 2%Q. change (inject_Z 1) with 1%Q in *. lra.
  - assert (Hlt : (inject_Z (z + 1) < inject_Z (Z.of_nat n))%Q)
      by (rewrite <- Zlt_Qlt; lia).
    rewrite inject_Z_plus in Hlt.
    assert (H0 : (0 <= inject_Z z)%Q).
    { change 0%Q with (inject_Z 0). rewrite <- Zle_Qle. lia. }
    rewrite Z.mod_small by lia.
    eexists. split; [reflexivity|].
    rewrite (Qtrunc_quotient (q + inject_Z 1) (inject_Z (Z.of_nat n)) 0);
      try lia; try assumption.
    + rewrite inject_Z_plus, Hz. change (inject_Z 0) with 0%Q. lra.
    + change (inject_Z 0) with 0%Q. change (inject_Z 1) with 1%Q in *. lra.
    + change (inject_Z (0 + 1)) with 1%Q. change (inject_Z 1) with 1%Q in *. lra.
Qed.

Lemma nextIndex_in_range (n : nat) (i : number) :
  FrameIndexInRange i n -> FrameIndexInRange (nextIndex n i) n.
Proof.
  intros (z & Hz & Hr). exists ((z + 1) mod Z.of_nat n)%Z.
  split; [apply nextIndex_value; assumption|].
  apply Z.mod_pos_bound. lia.
Qed.


(** ** Objects as property lists *)

Lemma prop_obj (o : list (string * value)) (k : string) :
  prop (VObj o) k = match assoc k o with Some x => x | None => VUndefined end.
Proof.
  unfold prop. cbn [entries]. destruct (assoc k o); [reflexivity|].
  destruct (String.eqb k "length"); reflexivity.
Qed.

Lemma assoc_set_prop_same (k : string) (v : value) (o : list (string * value)) :
  assoc k (set_prop k v o) = Some v.
Proof.
  induction o as [|[k' v'] o IH]; cbn [set_prop assoc].
  - rewrite String.eqb_refl. reflexivity.
  - destruct (String.eqb k k') eqn:E; cbn [assoc].
    + rewrite String.eqb_refl. reflexivity.
    + rewrite E. exact IH.
Qed.

Lemma assoc_set_prop_other (k k' : string) (v : value) (o : list (string * value)) :
  k <> k' -> assoc k (set_prop k' v o) = assoc k o.
Proof.
  intros Hne. apply String.eqb_neq in Hne.
  induction o as [|[k0 v0] o IH]; cbn [set_prop assoc].
  - rewrite Hne. reflexivity.
  - destruct (String.eqb k' k0) eqn:E; cbn [assoc].
    + apply String.eqb_eq in E. subst k0. rewrite Hne. reflexivity.
    + rewrite IH. reflexivity.
Qed.

Lemma assoc_In (A : Type) (k : string) (v : A) (l : list (string * A)) :
  assoc k l = Some v -> In (k, v) l.
Proof.
  induction l as [|[k' v'] l IH]; cbn [assoc]; [discriminate|].
  destruct (String.eqb k k') eqn:E.
  - apply String.eqb_eq in E. intros [= ->]. left. congruence.
  - intros H. right. apply IH. exact H.
Qed.

Lemma assoc_None_not_In (A : Type) (k : string) (l : list (string * A)) :
  assoc k l = None <-> ~ In k (map fst l).
Proof.
  induction l as [|[k' v'] l IH]; cbn [assoc map fst In].
  - split; [intros _ []|reflexivity].
  - destruct (String.eqb k k') eqn:E.
    + apply String.eqb_eq in E. split; [discriminate|]. intros H. elim H. left. congruence.
    + apply String.eqb_neq in E. rewrite IH. split.
      * intros H [H1|H1]; [congruence|contradiction].
      * intros H H1. apply H. right. exact H1.
Qed.


Lemma set_prop_values (P : value -> Prop) (k : string) (v : value)
  (o : list (string * value)) :
  P v -> Forall (fun kv => P (snd kv)) o ->
  Forall (fun kv => P (snd kv)) (set_prop k v o).
Proof.
  intros Hv Ho. induction Ho as [|[k' v'] o Hkv Ho IH]; cbn [set_prop].
  - constructor; [exact Hv|constructor].
  - destruct (String.eqb k k'); constructor; try assumption.
Qed.

Lemma assoc_values (P : value -> Prop) (k : string) (v : value)
  (o : list (string * value)) :
  Forall (fun kv => P (snd kv)) o -> assoc k o = Some v -> P v.
Proof.
  intros Ho Hk. apply assoc_In in Hk.
  rewrite Forall_forall in Ho. exact (Ho _ Hk).
Qed.

(** ** Normalisation of one animation *)

Lemma coalesce_get (a d : value) (k : string) :
  nullish d = false -> coalesce a (get d k) = Ok (nullishOr a (prop d k)).
Proof. intros H. rewrite get_prop by exact H. apply coalesce_value. Qed.

Lemma resolveFrames_ok (animation defaults v : value) :
  resolveFrames animation defaults = Ok v ->
  nullish animation = false /\
  (if Array_isArray (prop animation "frames")
   then v = prop animation "frames"
   else buildFramesFromRow animation defaults = Ok v).
Proof.
  unfold resolveFrames. unfold get at 1.
  destruct (nullish animation); [discriminate|]. cbn [bind].
  destruct (Array_isArray (prop animation "frames")).
  - intros [= <-]. split; reflexivity.
  - intros H. split; [reflexivity|exact H].
Qed.

(** The entry [normalizeEntry] stores, when it stores one. *)
Lemma normalizeEntry_ok (name : string) (animation defaults entry : value) :
  nullish defaults = false ->
  normalizeEntry name animation defaults = Ok entry ->
  exists (f : value) (fs : list value),
    resolveFrames animation defaults = Ok (VArr (f :: fs)) /\
    forallb isValidFrame (f :: fs) = true /\
    nullish animation = false /\
    entry = VObj
      [ ("label", nullishOr (prop animation "label") (VStr (fallbackLabel name)));
        ("frameDurationMs", nullishOr (prop animation "frameDurationMs")
                                      (prop defaults "frameDurationMs"));
        ("scale", nullishOr (prop animation "scale") (prop defaults "scale"));
        ("frames", VArr (f :: fs)) ].
Proof.
  intros Hd. unfold normalizeEntry.
  destruct (resolveFrames animation defaults) as [v|e] eqn:Hres; [|discriminate].
  destruct (resolveFrames_ok _ _ _ Hres) as [Ha _].
  cbn [bind].
  destruct v as [| | | | | [|f fs] |]; try discriminate.
  destruct (forallb isValidFrame (f :: fs)) eqn:Hvalid; cbn [negb]; [|discriminate].
  rewrite !(get_prop _ _ Ha). cbn [bind].
  rewrite coalesce_value. cbn [bind].
  rewrite !(coalesce_get _ _ _ Hd). cbn [bind].
  intros [= <-]. exists f, fs. repeat split; try assumption; reflexivity.
Qed.

Lemma normalizeEntry_truthy (name : string) (animation defaults entry : value) :
  normalizeEntry name animation defaults = Ok entry -> truthy entry = true.
Proof.
  unfold normalizeEntry.
  destruct (resolveFrames animation defaults) as [v|e]; [|discriminate].
  cbn [bind].
  destruct v as [| | | | | [|f fs] |]; try discriminate.
  destruct (negb (forallb isValidFrame (f :: fs))); [discriminate|].
  destruct (a <- get animation "label" ;; coalesce a (Ok (VStr (fallbackLabel name))));
    [|discriminate].
  cbn [bind].
  destruct (a0 <- get animation "frameDurationMs" ;;
            coalesce a0 (get defaults "frameDurationMs")); [|discriminate].
  cbn [bind].
  destruct (a1 <- get animation "scale" ;; coalesce a1 (get defaults "scale"));
    [|discriminate].
  cbn [bind]. intros [= <-]. reflexivity.
Qed.

(** ** The loop over the animations *)


Lemma normalizeEach_truthy (defaults : value) (es : list (string * value)) :
  forall (table table' : list (string * value)),
    normalizeEach es defaults table = Ok table' ->
    Forall (fun kv => truthy (snd kv) = true) table ->
    Forall (fun kv => truthy (snd kv) = true) table'.
Proof.
  induction es as [|[n a] es IH]; intros table table' Hrun Ht.
  - cbn in Hrun. congruence.
  - cbn [normalizeEach] in Hrun.
    destruct (normalizeEntry n a defaults) as [entry|e] eqn:He; [|discriminate].
    cbn [bind] in Hrun. apply (IH _ _ Hrun).
    apply (set_prop_values (fun v => truthy v = true)); [|exact Ht].
    exact (normalizeEntry_truthy _ _ _ _ He).
Qed.


(** A failing animation makes the loop fail; the error is the one of the
    first animation that fails. *)
Lemma normalizeEach_throws (defaults : value) (name : string) (animation : value)
  (e : exn) (post : list (string * value)) (pre : list (string * value)) :
  normalizeEntry name animation defaults = Throw e ->
  forall table,
    Forall (fun kv => exists entry,
                normalizeEntry (fst kv) (snd kv) defaults = Ok entry) pre ->
    normalizeEach (pre ++ (name, animation) :: post) defaults table = Throw e.
Proof.
  intros He. induction pre as [|[n a] pre IH]; intros table Hpre.
  - cbn [app normalizeEach]. rewrite He. reflexivity.
  - inversion Hpre as [|? ? [entry Hn] Hpre']; subst. cbn [fst snd] in Hn.
    cbn [app normalizeEach]. rewrite Hn. cbn [bind]. apply IH. exact Hpre'.
Qed.

Lemma normalizeEach_all_ok (defaults : value) (es : list (string * value)) :
  forall (table table' : list (string * value)),
    normalizeEach es defaults table = Ok table' ->
    forall (name : string) (animation : value),
      In (name, animation) es ->
      exists entry, normalizeEntry name animation defaults = Ok entry.
Proof.
  induction es as [|[n a] es IH]; intros table table' Hrun name animation Hin.
  - destruct Hin.
  - cbn [normalizeEach] in Hrun.
    destruct (normalizeEntry n a defaults) as [entry|e] eqn:He; [|discriminate].
    cbn [bind] in Hrun. destruct Hin as [Heq|Hin].
    + injection Heq as -> ->. exists entry. exact He.
    + exact (IH _ _ Hrun name animation Hin).
Qed.

(** ** The normalised table *)

Lemma mergedDefaults_not_nullish (supplied : value) :
  nullish (mergedDefaults supplied) = false.
Proof. reflexivity. Qed.

Lemma normalizeAnimations_ok (data table : value) :
  normalizeAnimations data = Ok table ->
  exists tbl : list (string * value),
    nullish data = false /\
    normalizeEach (configAnimations data)
      (mergedDefaults (prop data "defaults")) [] = Ok tbl /\
    prop table "animations" = VObj tbl /\
    prop table "defaults" = mergedDefaults (prop data "defaults") /\
    truthy table = true.
Proof.
  unfold normalizeAnimations. unfold get at 1.
  destruct (nullish data) eqn:Hdata; [discriminate|]. cbn [bind].
  rewrite (get_prop _ _ Hdata). cbn [bind].
  unfold Object_entries.
  destruct (nullish (prop data "animations")); [discriminate|]. cbn [bind].
  fold (configAnimations data).
  destruct (normalizeEach (configAnimations data)
              (mergedDefaults (prop data "defaults")) []) as [tbl|e] eqn:Hrun;
    [|discriminate].
  cbn [bind]. intros [= <-]. exists tbl.
  split; [reflexivity|]. split; [reflexivity|].
  rewrite !prop_obj. rewrite assoc_set_prop_same.
  rewrite !assoc_set_prop_other by discriminate.
  rewrite assoc_set_prop_same. repeat split; reflexivity.
Qed.


Lemma assoc_spread (k : string) (more o : list (string * value)) :
  NoDup (map fst more) ->
  assoc k (spread o more) =
  match assoc k more with Some v => Some v | None => assoc k o end.
Proof.
  unfold spread. revert o.
  induction more as [|[k1 v1] more IH]; intros o Hnd; cbn [fold_left assoc fst snd].
  - reflexivity.
  - cbn [map fst] in Hnd. inversion Hnd as [|? ? Hnotin Hnd']; subst.
    rewrite (IH _ Hnd').
    destruct (String.eqb k k1) eqn:E.
    + apply String.eqb_eq in E. subst k1.
      apply assoc_None_not_In in Hnotin. rewrite Hnotin.
      apply assoc_set_prop_same.
    + apply String.eqb_neq in E.
      rewrite (assoc_set_prop_other _ _ _ _ E). reflexivity.
Qed.

(** ** The claims *)








(** The entries of a normalised table are objects, hence truthy. *)
Lemma normalized_entries_truthy (data table : value) (key : string)
  (entry : value) :
  normalizeAnimations data = Ok table ->
  tableEntry table key = Some entry ->
  truthy entry = true.
Proof.
  intros Hnorm Hentry.
  destruct (normalizeAnimations_ok _ _ Hnorm) as (tbl & _ & Hrun & Htbl & _).
  unfold tableEntry in Hentry. rewrite Htbl in Hentry. cbn [entries] in Hentry.
  apply (assoc_values (fun v => truthy v = true) key entry tbl); [|exact Hentry].
  apply (normalizeEach_truthy _ _ _ _ Hrun). constructor.
Qed.



(** ** The frame resolver *)

Lemma buildFramesFromRow_unfold (animation defaults : value) :
  nullish animation = false ->
  nullish defaults = false ->
  buildFramesFromRow animation defaults =
  if gridRefused animation defaults then Ok VNull
  else Ok (VArr (Array_from (ToLength (prop animation "frameCount"))
                   (gridFrame animation defaults))).
Proof.
  intros Ha Hd. unfold buildFramesFromRow.
  rewrite !(get_prop _ _ Ha). cbn [bind].
  rewrite !(coalesce_get _ _ _ Hd). rewrite coalesce_value. cbn [bind].
  fold (gridWidth animation defaults). fold (gridHeight animation defaults).
  fold (gridStartCol animation). fold (gridRefused animation defaults).
  destruct (gridRefused animation defaults); [reflexivity|].
  rewrite !coalesce_value. cbn [bind]. reflexivity.
Qed.

Lemma js_lt_one (q : Q) (n : Z) :
  (q == inject_Z n)%Q ->
  js_lt (VNum (Finite q)) (vnum 1) = false <-> (1 <= n)%Z.
Proof.
  intros Hq. unfold js_lt, vnum, num_of_Z. cbn [ToNumber].
  rewrite num_ltb_Finite_false, Hq, <- Zle_Qle. reflexivity.
Qed.

Lemma js_le_zero (q : Q) :
  js_le (VNum (Finite q)) (vnum 0) = false <-> (0 < q)%Q.
Proof.
  unfold js_le, vnum, num_of_Z. cbn [ToNumber].
  rewrite num_leb_Finite_false. reflexivity.
Qed.

(** The test of the frame resolver refuses exactly the grids that break a
    validation rule. *)
Lemma gridRefused_false_iff (animation defaults : value) :
  gridRefused animation defaults = false <-> ValidGrid animation defaults.
Proof.
  unfold gridRefused, ValidGrid. rewrite !orb_false_iff, !negb_false_iff.
  rewrite !Number_isInteger_spec, !Number_isFinite_spec.
  split.
  - intros ((((((Hrow & [n Hn]) & Hlt) & [w Hw]) & [h Hh]) & Hwpos) & Hhpos).
    split; [exact Hrow|].
    split.
    { exists n. split; [exact Hn|].
      destruct Hn as (q & Hq & Hqn). rewrite Hq in Hlt.
      apply (js_lt_one q n Hqn). exact Hlt. }
    split.
    { exists w. split; [exact Hw|]. unfold FiniteValue in Hw.
      rewrite Hw in Hwpos. apply js_le_zero. exact Hwpos. }
    exists h. split; [exact Hh|]. unfold FiniteValue in Hh.
    rewrite Hh in Hhpos. apply js_le_zero. exact Hhpos.
  - intros (Hrow & (n & Hn & Hn1) & (w & Hw & Hwpos) & (h & Hh & Hhpos)).
    repeat split.
    + exact Hrow.
    + exists n. exact Hn.
    + destruct Hn as (q & Hq & Hqn). rewrite Hq.
      apply (js_lt_one q n Hqn). exact Hn1.
    + exists w. exact Hw.
    + exists h. exact Hh.
    + unfold FiniteValue in Hw. rewrite Hw. apply js_le_zero. exact Hwpos.
    + unfold FiniteValue in Hh. rewrite Hh. apply js_le_zero. exact Hhpos.
Qed.

(** C6: a grid animation (one whose [frames] is not an array) that breaks
    a validation rule of the frame resolver gets the null marker from it,
    and its normalisation throws the error that names it; a config that
    holds it does not normalise, and the error thrown is this one when the
    animations before it are in order. *)
Theorem invalid_grid_rejected (data : value) (name : string) (animation : value)
  (before after : list (string * value)) :
  configAnimations data = before ++ (name, animation) :: after ->
  nullish animation = false ->
  Array_isArray (prop animation "frames") = false ->
  ~ ValidGrid animation (mergedDefaults (prop data "defaults")) ->
  buildFramesFromRow animation (mergedDefaults (prop data "defaults")) = Ok VNull /\
  normalizeEntry name animation (mergedDefaults (prop data "defaults"))
    = Throw (Error (needsFramesMessage name)) /\
  mentions (needsFramesMessage name) name /\
  (forall table, normalizeAnimations data <> Ok table) /\
  (Forall (fun kv => exists entry,
             normalizeEntry (fst kv) (snd kv)
               (mergedDefaults (prop data "defaults")) = Ok entry) before ->
   normalizeAnimations data = Throw (Error (needsFramesMessage name))).
Proof.
  intros Hcfg Ha Hframes Hinvalid.
  set (defaults := mergedDefaults (prop data "defaults")) in *.
  assert (Hbuild : buildFramesFromRow animation defaults = Ok VNull).
  { rewrite buildFramesFromRow_unfold by (exact Ha || reflexivity).
    destruct (gridRefused animation defaults) eqn:E; [reflexivity|].
    apply gridRefused_false_iff in E. contradiction. }
  assert (Hentry : normalizeEntry name animation defaults
                   = Throw (Error (needsFramesMessage name))).
  { unfold normalizeEntry, resolveFrames. rewrite (get_prop _ _ Ha).
    cbn [bind]. rewrite Hframes, Hbuild. reflexivity. }
  split; [exact Hbuild|]. split; [exact Hentry|].
  split.
  { exists "Animation '"%string.
    exists "' needs either a non-empty 'frames' array or valid row/frameCount data."%string.
    reflexivity. }
  assert (Hdata : nullish data = false).
  { destruct (nullish data) eqn:E; [|reflexivity].
    pose proof Hcfg as Hcfg'. unfold configAnimations in Hcfg'.
    rewrite (prop_nullish _ _ E) in Hcfg'. destruct before; discriminate. }
  assert (Hanims : nullish (prop data "animations") = false).
  { pose proof Hcfg as Hcfg'. unfold configAnimations in Hcfg'.
    destruct (prop data "animations"); try reflexivity;
      cbn [entries] in Hcfg'; destruct before; discriminate. }
  split.
  - intros table Hnorm.
    destruct (normalizeAnimations_ok _ _ Hnorm) as (tbl & _ & Hrun & _).
    destruct (normalizeEach_all_ok _ _ _ _ Hrun name animation) as [entry He].
    { rewrite Hcfg. apply in_or_app. right. left. reflexivity. }
    fold defaults in He. congruence.
  - intros Hbefore. unfold normalizeAnimations.
    rewrite !(get_prop _ _ Hdata). cbn [bind].
    unfold Object_entries. rewrite Hanims. cbn [bind].
    fold (configAnimations data). rewrite Hcfg. fold defaults.
    rewrite (normalizeEach_throws defaults name animation _ after before Hentry [] Hbefore).
    reflexivity.
Qed.






(** ** The playback clock *)

Lemma normalizeEach_values (P : value -> Prop) (defaults : value)
  (es : list (string * value)) :
  (forall name animation entry,
      normalizeEntry name animation defaults = Ok entry -> P entry) ->
  forall (table table' : list (string * value)),
    normalizeEach es defaults table = Ok table' ->
    Forall (fun kv => P (snd kv)) table ->
    Forall (fun kv => P (snd kv)) table'.
Proof.
  intros HP. induction es as [|[n a] es IH]; intros table table' Hrun Ht.
  - cbn in Hrun. congruence.
  - cbn [normalizeEach] in Hrun.
    destruct (normalizeEntry n a defaults) as [entry|e] eqn:He; [|discriminate].
    cbn [bind] in Hrun. apply (IH _ _ Hrun).
    apply (set_prop_values P); [|exact Ht].
    exact (HP _ _ _ He).
Qed.


Lemma index_key_not_animations (i : nat) :
  String.eqb "animations" (index_key i) = false.
Proof.
  unfold index_key, NilZero.string_of_uint.
  destruct (Nat.to_uint i); reflexivity.
Qed.

Lemma assoc_animations_indexed (A : Type) (l : list A) (i : nat) :
  assoc "animations" (indexed i l) = None.
Proof.
  revert i. induction l as [|x l IH]; intros i; cbn [indexed assoc].
  - reflexivity.
  - rewrite index_key_not_animations. apply IH.
Qed.

(** A table with an entry is an object, and the entry is what a lookup
    under its key returns. *)
Lemma tableEntry_lookup (table : value) (key : string) (entry : value) :
  tableEntry table key = Some entry ->
  truthy table = true /\
  get table "animations" = Ok (prop table "animations") /\
  get_at (prop table "animations") (VStr key) = Ok entry.
Proof.
  unfold tableEntry. intros Hentry.
  assert (Hanims : nullish (prop table "animations") = false).
  { destruct (prop table "animations"); try reflexivity; discriminate. }
  assert (Htable : truthy table = true).
  { destruct table as [| | b | n | s | a | o]; try reflexivity;
      unfold prop in Hanims; cbn [entries assoc] in Hanims;
      try rewrite assoc_animations_indexed in Hanims; discriminate. }
  split; [exact Htable|].
  split; [apply get_prop; destruct table; try discriminate; reflexivity|].
  unfold get_at. cbn [ToPropertyKey ToString].
  rewrite (get_prop _ _ Hanims). unfold prop at 1. rewrite Hentry. reflexivity.
Qed.

Lemma advanceFrames_preserves (animation : value) (l : list value) (d : Q)
  (fuel : nat) :
  prop animation "frames" = VArr l ->
  forall st st' : State,
    advanceFrames fuel animation (VNum (Finite d)) st = Some (Ok st') ->
    animations st' = animations st /\
    activeAnimationKey st' = activeAnimationKey st /\
    (FrameIndexInRange (frameIndex st) (List.length l) ->
     FrameIndexInRange (frameIndex st') (List.length l)) /\
    ((exists t, frameTimerMs st = Finite t) ->
     exists t', frameTimerMs st' = Finite t').
Proof.
  intros Hframes.
  assert (Hlen : (frames <- get animation "frames" ;; get frames "length")
                 = Ok (VNum (num_of_nat (List.length l)))).
  { rewrite get_prop by (apply prop_defined_not_nullish with (k := "frames");
                         rewrite Hframes; discriminate).
    cbn [bind]. rewrite Hframes. rewrite get_prop by reflexivity.
    rewrite prop_length_array. reflexivity. }
  induction fuel as [|fuel IH]; intros st st'; cbn [advanceFrames].
  - destruct (js_ge (VNum (frameTimerMs st)) (VNum (Finite d))); [discriminate|].
    intros [= <-]. repeat split; trivial.
  - destruct (js_ge (VNum (frameTimerMs st)) (VNum (Finite d))).
    + rewrite Hlen. intros Hrun. apply IH in Hrun.
      cbn [animations activeAnimationKey frameIndex frameTimerMs ToNumber] in Hrun.
      destruct Hrun as (Ha & Hk & Hi & Ht).
      split; [exact Ha|]. split; [exact Hk|]. split.
      * intros Hr. apply Hi. apply nextIndex_in_range. exact Hr.
      * intros [t Ht0]. apply Ht. rewrite Ht0. eexists. reflexivity.
    + intros [= <-]. repeat split; trivial.
Qed.

Lemma draw_preserves (st st' : State) (animation : value) (l : list value)
  (d e : Q) (fuel : nat) :
  activeAnimation st = Ok animation ->
  prop animation "frameDurationMs" = VNum (Finite d) ->
  prop animation "frames" = VArr l ->
  draw fuel (Finite e) st = Some (Ok st') ->
  animations st' = animations st /\
  activeAnimationKey st' = activeAnimationKey st /\
  (FrameIndexInRange (frameIndex st) (List.length l) ->
   FrameIndexInRange (frameIndex st') (List.length l)) /\
  ((exists t, frameTimerMs st = Finite t) ->
   exists t', frameTimerMs st' = Finite t').
Proof.
  intros Hactive Hd Hframes. unfold draw. rewrite Hactive.
  rewrite (prop_array_truthy animation _ l Hframes). cbn [negb].
  rewrite get_prop by (apply prop_defined_not_nullish with (k := "frames");
                       rewrite Hframes; discriminate).
  cbn [bind]. rewrite Hd. cbn [coalesce nullish].
  match goal with
  | |- context [advanceFrames fuel animation _ ?s] => set (st0 := s)
  end.
  destruct (advanceFrames fuel animation (VNum (Finite d)) st0)
    as [[st1|err]|] eqn:Hrun; try discriminate.
  destruct (getCurrentFrame animation st1); [|discriminate].
  intros [= <-].
  destruct (advanceFrames_preserves animation l d fuel Hframes st0 st1 Hrun)
    as (Ha & Hk & Hi & Ht).
  split; [exact Ha|]. split; [exact Hk|]. split; [exact Hi|].
  intros [t Ht0]. apply Ht. unfold st0. cbn [frameTimerMs].
  rewrite Ht0. eexists. reflexivity.
Qed.



Lemma activeAnimation_entry (st : State) (key : string) (entry : value) :
  activeAnimationKey st = VStr key ->
  tableEntry (animations st) key = Some entry ->
  activeAnimation st = Ok entry.
Proof.
  intros Hkey Hentry. unfold activeAnimation. rewrite Hkey.
  destruct (tableEntry_lookup _ _ _ Hentry) as (_ & -> & Hget).
  cbn [bind]. exact Hget.
Qed.



(** What a run of the render loop keeps, on an entry with a positive
    duration and at least one frame. *)
Lemma advances_invariant (animation : value) (l : list value) (d : Q)
  (table key : value) (deltas : list number) :
  prop animation "frameDurationMs" = VNum (Finite d) ->
  prop animation "frames" = VArr l ->
  (0 < d)%Q ->
  Forall elapsed deltas ->
  forall st : State,
    animations st = table ->
    activeAnimationKey st = key ->
    (forall s, animations s = table -> activeAnimationKey s = key ->
               activeAnimation s = Ok animation) ->
    FrameIndexInRange (frameIndex st) (List.length l) ->
    (exists t, frameTimerMs st = Finite t) ->
    (exists st', advances st deltas st') /\
    (forall st', advances st deltas st' ->
                 FrameIndexInRange (frameIndex st') (List.length l)).
Proof.
  intros Hd Hframes Hpos Hdeltas.
  induction Hdeltas as [|delta deltas (e & -> & He) Hrest IH];
    intros st Htable Hkey Hactive Hrange [t Ht].
  - split.
    + exists st. constructor.
    + intros st' Hrun. inversion Hrun; subst. exact Hrange.
  - pose proof (Hactive st Htable Hkey) as Hact.
    destruct (draw_runs st animation l d t e Hact Hd Hframes Hpos Ht)
      as (k & st1 & t1 & Hrun1 & _).
    destruct (draw_preserves st st1 animation l d e _ Hact Hd Hframes Hrun1)
      as (Ha1 & Hk1 & Hi1 & Ht1).
    split.
    + destruct (IH st1) as [[st2 Hrun2] _].
      * congruence.
      * congruence.
      * exact Hactive.
      * exact (Hi1 Hrange).
      * apply Ht1. exists t. exact Ht.
      * exists st2. econstructor; [exact Hrun1|exact Hrun2].
    + intros st' Hrun. inversion Hrun as [|? fuel ? st1' ? ? Hdraw Hnext]; subst.
      destruct (draw_preserves st st1' animation l d e fuel Hact Hd Hframes Hdraw)
        as (Ha & Hk & Hi & Ht').
      destruct (IH st1') as [_ Hinv].
      * congruence.
      * congruence.
      * exact Hactive.
      * exact (Hi Hrange).
      * apply Ht'. exists t. exact Ht.
      * exact (Hinv st' Hnext).
Qed.


(** ** Start-up *)



(** C9, at the input that breaks it: the config
    [{animations: {"": {frames: [...]}}}] normalises to a table with one
    entry, under the key [""], and [init] reports that no animation was
    found: no key is selected and the loop is not started. *)
Theorem init_rejects_empty_key :
  exists st table entry,
    init emptyKeyConfig initialState
      = (st, Throw (Error "No animations found in JSON.")) /\
    normalizeAnimations emptyKeyConfig = Ok table /\
    animations st = table /\
    tableEntry table "" = Some entry /\
    activeAnimationKey st = VNull.
Proof.
  eexists _, _, _. split; [reflexivity|].
  split; [reflexivity|]. repeat split; reflexivity.
Qed.

(** ** More on the normaliser *)

Lemma index_key_not_x (i : nat) : String.eqb "x" (index_key i) = false.
Proof.
  unfold index_key, NilZero.string_of_uint.
  destruct (Nat.to_uint i); reflexivity.
Qed.

Lemma assoc_x_indexed (A : Type) (l : list A) (i : nat) :
  assoc "x" (indexed i l) = None.
Proof.
  revert i. induction l as [|a l IH]; intros i; cbn [indexed assoc].
  - reflexivity.
  - rewrite index_key_not_x. apply IH.
Qed.

(** Only an object has a numeric [x]. *)
Lemma prop_x_number_truthy (v : value) (n : number) :
  prop v "x" = VNum n -> truthy v = true.
Proof.
  destruct v as [| | b | m | s | a | o]; try reflexivity; unfold prop;
    cbn [entries assoc]; try discriminate.
  - rewrite assoc_x_indexed. discriminate.
Qed.

Lemma js_gt_zero (q : Q) :
  js_gt (VNum (Finite q)) (vnum 0) = true <-> (0 < q)%Q.
Proof.
  unfold js_gt, num_gtb, vnum, num_of_Z. cbn [ToNumber].
  rewrite num_ltb_Finite. reflexivity.
Qed.

(** [isValidFrame] accepts exactly the rectangles. *)
Lemma isValidFrame_iff (frame : value) :
  isValidFrame frame = true <-> ValidRect frame.
Proof.
  unfold isValidFrame, ValidRect. rewrite !andb_true_iff.
  rewrite !Number_isFinite_spec. unfold FiniteValue. split.
  - intros ((((((_ & [x Hx]) & [y Hy]) & [w Hw]) & [h Hh]) & Hwpos) & Hhpos).
    exists x, y, w, h. rewrite Hw in Hwpos. rewrite Hh in Hhpos.
    apply js_gt_zero in Hwpos. apply js_gt_zero in Hhpos.
    repeat split; assumption.
  - intros (x & y & w & h & Hx & Hy & Hw & Hh & Hwpos & Hhpos).
    repeat split.
    + exact (prop_x_number_truthy _ _ Hx).
    + exists x. exact Hx.
    + exists y. exact Hy.
    + exists w. exact Hw.
    + exists h. exact Hh.
    + rewrite Hw. apply js_gt_zero. exact Hwpos.
    + rewrite Hh. apply js_gt_zero. exact Hhpos.
Qed.

Lemma forallb_isValidFrame (l : list value) :
  forallb isValidFrame l = true <-> Forall ValidRect l.
Proof.
  rewrite forallb_forall, Forall_forall. split; intros H f Hf.
  - apply isValidFrame_iff. exact (H f Hf).
  - apply isValidFrame_iff. exact (H f Hf).
Qed.

(** X1: in a table the normaliser produced, every entry holds a
    non-empty array of frames and each frame is a rectangle: finite [x],
    [y], [w], [h], with [w > 0] and [h > 0]. *)
Theorem normalized_frames_valid (data table : value) (key : string)
  (entry : value) :
  normalizeAnimations data = Ok table ->
  tableEntry table key = Some entry ->
  exists (f : value) (fs : list value),
    prop entry "frames" = VArr (f :: fs) /\
    Forall ValidRect (f :: fs).
Proof.
  intros Hnorm Hentry.
  destruct (normalizeAnimations_ok _ _ Hnorm) as (tbl & _ & Hrun & Htbl & _).
  unfold tableEntry in Hentry. rewrite Htbl in Hentry. cbn [entries] in Hentry.
  apply (assoc_values
           (fun v => exists f fs, prop v "frames" = VArr (f :: fs) /\
                                  Forall ValidRect (f :: fs))
           key entry tbl); [|exact Hentry].
  apply (normalizeEach_values
           (fun v => exists f fs, prop v "frames" = VArr (f :: fs) /\
                                  Forall ValidRect (f :: fs))
           (mergedDefaults (prop data "defaults")) (configAnimations data))
    with (table := []); [|exact Hrun|constructor].
  intros name animation entry0 He.
  destruct (normalizeEntry_ok _ _ _ _ (mergedDefaults_not_nullish _) He)
    as (f & fs & _ & Hvalid & _ & ->).
  exists f, fs. split; [reflexivity|].
  apply forallb_isValidFrame. exact Hvalid.
Qed.

(** The normaliser on a config whose animation [name] fails: it fails,
    and with the error of [name] when the animations before it are in
    order. *)
Lemma normalizeAnimations_throws (data : value) (name : string)
  (animation : value) (before after : list (string * value)) (e : exn) :
  configAnimations data = before ++ (name, animation) :: after ->
  normalizeEntry name animation (mergedDefaults (prop data "defaults"))
    = Throw e ->
  (forall table, normalizeAnimations data <> Ok table) /\
  (Forall (fun kv => exists entry,
             normalizeEntry (fst kv) (snd kv)
               (mergedDefaults (prop data "defaults")) = Ok entry) before ->
   normalizeAnimations data = Throw e).
Proof.
  intros Hcfg Hentry.
  assert (Hdata : nullish data = false).
  { destruct (nullish data) eqn:E; [|reflexivity].
    pose proof Hcfg as Hcfg'. unfold configAnimations in Hcfg'.
    rewrite (prop_nullish _ _ E) in Hcfg'. destruct before; discriminate. }
  assert (Hanims : nullish (prop data "animations") = false).
  { pose proof Hcfg as Hcfg'. unfold configAnimations in Hcfg'.
    destruct (prop data "animations"); try reflexivity;
      cbn [entries] in Hcfg'; destruct before; discriminate. }
  split.
  - intros table Hnorm.
    destruct (normalizeAnimations_ok _ _ Hnorm) as (tbl & _ & Hrun & _).
    destruct (normalizeEach_all_ok _ _ _ _ Hrun name animation) as [entry He].
    { rewrite Hcfg. apply in_or_app. right. left. reflexivity. }
    congruence.
  - intros Hbefore. unfold normalizeAnimations.
    rewrite !(get_prop _ _ Hdata). cbn [bind].
    unfold Object_entries. rewrite Hanims. cbn [bind].
    fold (configAnimations data). rewrite Hcfg.
    rewrite (normalizeEach_throws _ name animation _ after before Hentry []
               Hbefore).
    reflexivity.
Qed.

(** X2: an animation whose [frames] is an array that holds a value that
    is not a rectangle (a coordinate that is missing or not a finite
    number, or [w] or [h] not positive) is refused with the error that
    names it and says its frame data is invalid; the config does not
    normalise. *)
Theorem invalid_frame_rejected (data : value) (name : string)
  (animation : value) (before after : list (string * value))
  (frames : list value) (frame : value) :
  configAnimations data = before ++ (name, animation) :: after ->
  prop animation "frames" = VArr frames ->
  In frame frames ->
  ~ ValidRect frame ->
  normalizeEntry name animation (mergedDefaults (prop data "defaults"))
    = Throw (Error (invalidFrameMessage name)) /\
  mentions (invalidFrameMessage name) name /\
  (forall table, normalizeAnimations data <> Ok table) /\
  (Forall (fun kv => exists entry,
             normalizeEntry (fst kv) (snd kv)
               (mergedDefaults (prop data "defaults")) = Ok entry) before ->
   normalizeAnimations data = Throw (Error (invalidFrameMessage name))).
Proof.
  intros Hcfg Hframes Hin Hinvalid.
  assert (Hentry : normalizeEntry name animation
                     (mergedDefaults (prop data "defaults"))
                   = Throw (Error (invalidFrameMessage name))).
  { unfold normalizeEntry, resolveFrames.
    rewrite get_prop by (apply prop_defined_not_nullish with (k := "frames");
                         rewrite Hframes; discriminate).
    cbn [bind]. rewrite Hframes. cbn [Array_isArray bind].
    destruct frames as [|f fs]; [destruct Hin|].
    destruct (forallb isValidFrame (f :: fs)) eqn:E; [|reflexivity].
    apply forallb_isValidFrame in E. rewrite Forall_forall in E.
    elim Hinvalid. exact (E frame Hin). }
  split; [exact Hentry|].
  split.
  { exists "Animation '"%string, "' has invalid frame data."%string.
    reflexivity. }
  exact (normalizeAnimations_throws data name animation before after _
           Hcfg Hentry).
Qed.




(** ** Keys and their order *)

Lemma set_prop_new (k : string) (v : value) (o : list (string * value)) :
  ~ In k (keys o) -> set_prop k v o = o ++ [(k, v)].
Proof.
  unfold keys. induction o as [|[k' v'] o IH]; intros Hnew; cbn [set_prop app].
  - reflexivity.
  - cbn [map fst In] in Hnew.
    destruct (String.eqb k k') eqn:E.
    + apply String.eqb_eq in E. elim Hnew. left. congruence.
    + rewrite IH by tauto. reflexivity.
Qed.

Lemma keys_set_prop_old (k : string) (v : value) (o : list (string * value)) :
  In k (keys o) -> keys (set_prop k v o) = keys o.
Proof.
  unfold keys. induction o as [|[k' v'] o IH]; intros Hold; cbn [set_prop].
  - destruct Hold.
  - destruct (String.eqb k k') eqn:E.
    + apply String.eqb_eq in E. subst k'. reflexivity.
    + apply String.eqb_neq in E. cbn [map fst In] in *.
      rewrite IH; [reflexivity|]. destruct Hold; [congruence|assumption].
Qed.


Lemma NoDup_keys_set_prop (k : string) (v : value) (o : list (string * value)) :
  NoDup (keys o) -> NoDup (keys (set_prop k v o)).
Proof.
  intros Hnd. destruct (in_dec string_dec k (keys o)) as [Hold|Hnew].
  - rewrite (keys_set_prop_old _ _ _ Hold). exact Hnd.
  - rewrite (set_prop_new _ _ _ Hnew). unfold keys in *. rewrite map_app.
    cbn [map fst]. apply NoDup_app.
    + exact Hnd.
    + constructor; [intros []|constructor].
    + intros x Hx [<-|[]]. contradiction.
Qed.

Lemma NoDup_keys_spread (o more : list (string * value)) :
  NoDup (keys o) -> NoDup (keys (spread o more)).
Proof.
  unfold spread. revert o.
  induction more as [|[k v] more IH]; intros o Hnd; cbn [fold_left fst snd].
  - exact Hnd.
  - apply IH. apply NoDup_keys_set_prop. exact Hnd.
Qed.

Lemma spread_append (ext acc : list (string * value)) :
  NoDup (keys (acc ++ ext)) -> spread acc ext = acc ++ ext.
Proof.
  unfold spread. revert acc.
  induction ext as [|[k v] ext IH]; intros acc Hnd; cbn [fold_left fst snd].
  - rewrite app_nil_r. reflexivity.
  - assert (Hnew : ~ In k (keys acc)).
    { unfold keys in *. rewrite map_app in Hnd. cbn [map fst] in Hnd.
      apply NoDup_remove_2 in Hnd. intros H. apply Hnd.
      apply in_or_app. left. exact H. }
    rewrite (set_prop_new _ _ _ Hnew).
    rewrite IH; rewrite <- app_assoc; [reflexivity|exact Hnd].
Qed.


Lemma normalizeEach_NoDup (defaults : value) (es : list (string * value)) :
  forall (table table' : list (string * value)),
    normalizeEach es defaults table = Ok table' ->
    NoDup (keys table) -> NoDup (keys table').
Proof.
  induction es as [|[n a] es IH]; intros table table' Hrun Hnd.
  - cbn in Hrun. congruence.
  - cbn [normalizeEach] in Hrun.
    destruct (normalizeEntry n a defaults) as [entry|e]; [|discriminate].
    cbn [bind] in Hrun. apply (IH _ _ Hrun).
    apply NoDup_keys_set_prop. exact Hnd.
Qed.


Lemma tableEntry_keys (table : value) (k : string) :
  tableEntry table k <> None <-> In k (keys (entries (prop table "animations"))).
Proof.
  unfold tableEntry, keys. rewrite assoc_None_not_In.
  destruct (in_dec string_dec k (map fst (entries (prop table "animations"))));
    tauto.
Qed.


(** X5: the table keeps every other top-level field of a config object
    (one without a repeated field), [defaultAnimation] among them; only
    [defaults] and [animations] are replaced. *)
Theorem normalized_keeps_fields (fields : list (string * value))
  (table : value) (k : string) :
  normalizeAnimations (VObj fields) = Ok table ->
  NoDup (keys fields) ->
  k <> "defaults" -> k <> "animations" ->
  prop table k = prop (VObj fields) k.
Proof.
  intros Hnorm Hnd Hk1 Hk2. unfold normalizeAnimations in Hnorm.
  rewrite !get_prop in Hnorm by reflexivity. cbn [bind] in Hnorm.
  destruct (Object_entries (prop (VObj fields) "animations")) as [es|e];
    [|discriminate].
  cbn [bind] in Hnorm.
  destruct (normalizeEach es (mergedDefaults (prop (VObj fields) "defaults")) [])
    as [tbl|e]; [|discriminate].
  cbn [bind] in Hnorm. injection Hnorm as <-.
  rewrite !prop_obj. rewrite !(assoc_set_prop_other _ _ _ _ Hk2).
  rewrite (assoc_set_prop_other _ _ _ _ Hk1). cbn [entries].
  rewrite (assoc_spread k fields [] Hnd). cbn [assoc].
  destruct (assoc k fields); reflexivity.
Qed.

(** ** Normalising a table again *)

Lemma set_prop_same_value (k : string) (v : value) (o : list (string * value)) :
  assoc k o = Some v -> set_prop k v o = o.
Proof.
  induction o as [|[k' v'] o IH]; cbn [assoc set_prop]; [discriminate|].
  destruct (String.eqb k k') eqn:E.
  - apply String.eqb_eq in E. intros [= ->]. congruence.
  - intros H. rewrite (IH H). reflexivity.
Qed.

Lemma set_prop_twice (k : string) (v v' : value) (o : list (string * value)) :
  set_prop k v (set_prop k v' o) = set_prop k v o.
Proof.
  induction o as [|[k0 v0] o IH]; cbn [set_prop].
  - rewrite String.eqb_refl. reflexivity.
  - destruct (String.eqb k k0) eqn:E; cbn [set_prop].
    + rewrite String.eqb_refl. reflexivity.
    + rewrite E, IH. reflexivity.
Qed.

Lemma set_prop_app_new (k : string) (v : value) (p q : list (string * value)) :
  ~ In k (keys p) -> set_prop k v (p ++ q) = p ++ set_prop k v q.
Proof.
  unfold keys. induction p as [|[k' v'] p IH]; intros Hnew; cbn [app set_prop].
  - reflexivity.
  - cbn [map fst In] in Hnew. destruct (String.eqb k k') eqn:E.
    + apply String.eqb_eq in E. elim Hnew. left. congruence.
    + rewrite IH by tauto. reflexivity.
Qed.

Lemma spread_same_keys (o' p r : list (string * value)) :
  keys r = keys o' ->
  NoDup (keys (p ++ r)) ->
  spread (p ++ r) o' = p ++ o'.
Proof.
  unfold spread. revert p r.
  induction o' as [|[k v'] o' IH]; intros p r Hkeys Hnd.
  - destruct r; [reflexivity|discriminate].
  - destruct r as [|[k0 v] r]; [discriminate|].
    unfold keys in Hkeys. cbn [map fst] in Hkeys. injection Hkeys as -> Hkeys.
    cbn [fold_left fst snd].
    assert (Hnew : ~ In k (keys p)).
    { unfold keys in *. rewrite map_app in Hnd. cbn [map fst] in Hnd.
      apply NoDup_remove_2 in Hnd. intros H. apply Hnd.
      apply in_or_app. left. exact H. }
    rewrite (set_prop_app_new _ _ _ _ Hnew). cbn [set_prop].
    rewrite String.eqb_refl.
    change (p ++ (k, v') :: r) with (p ++ [(k, v')] ++ r).
    rewrite app_assoc. rewrite (IH (p ++ [(k, v')]) r Hkeys).
    + rewrite <- app_assoc. reflexivity.
    + unfold keys in *. rewrite <- app_assoc. rewrite !map_app in *.
      cbn [map fst app] in *. exact Hnd.
Qed.

Lemma keys_spread_prefix (s o : list (string * value)) :
  exists ext, keys (spread o s) = keys o ++ ext.
Proof.
  unfold spread. revert o.
  induction s as [|[k v] s IH]; intros o; cbn [fold_left fst snd].
  - exists []. rewrite app_nil_r. reflexivity.
  - destruct (IH (set_prop k v o)) as [ext Hext].
    destruct (in_dec string_dec k (keys o)) as [Hold|Hnew].
    + exists ext. rewrite Hext, (keys_set_prop_old _ _ _ Hold). reflexivity.
    + exists (k :: ext). rewrite Hext, (set_prop_new _ _ _ Hnew).
      unfold keys. rewrite map_app, <- app_assoc. reflexivity.
Qed.

(** Spreading twice over the same object changes nothing more. *)
Lemma spread_idempotent (o s : list (string * value)) :
  NoDup (keys o) -> spread o (spread o s) = spread o s.
Proof.
  intros Hnd.
  pose proof (NoDup_keys_spread o s Hnd) as HndM.
  destruct (keys_spread_prefix s o) as [ext Hext].
  set (M := spread o s) in *.
  assert (Hsplit : M = firstn (List.length o) M ++ skipn (List.length o) M)
    by (symmetry; apply firstn_skipn).
  assert (Hfirst : keys (firstn (List.length o) M) = keys o).
  { unfold keys. rewrite <- firstn_map. fold (keys M). rewrite Hext.
    replace (List.length o) with (List.length (keys o) + 0)%nat
      by (unfold keys; rewrite length_map; lia).
    rewrite firstn_app_2. cbn [firstn]. apply app_nil_r. }
  rewrite Hsplit at 1. unfold spread at 1. rewrite fold_left_app.
  fold (spread o (firstn (List.length o) M)).
  pose proof (spread_same_keys (firstn (List.length o) M) [] o
                (eq_sym Hfirst) Hnd) as Hsame.
  cbn [app] in Hsame. rewrite Hsame.
  fold (spread (firstn (List.length o) M) (skipn (List.length o) M)).
  rewrite spread_append; [symmetry; exact Hsplit|].
  rewrite <- Hsplit. exact HndM.
Qed.

Lemma NoDup_keys_baseDefaults : NoDup (keys baseDefaults).
Proof.
  unfold keys, baseDefaults. cbn [map fst].
  repeat (constructor; [cbn [In]; intuition discriminate|]). constructor.
Qed.

Lemma mergedDefaults_idempotent (supplied : value) :
  mergedDefaults (mergedDefaults supplied) = mergedDefaults supplied.
Proof.
  unfold mergedDefaults at 1 3. cbn [or_else truthy entries].
  unfold mergedDefaults. cbn [or_else truthy entries].
  rewrite spread_idempotent by exact NoDup_keys_baseDefaults. reflexivity.
Qed.

Lemma nullishOr_absorb (a b : value) :
  nullishOr (nullishOr a b) b = nullishOr a b.
Proof.
  unfold nullishOr. destruct (nullish a) eqn:Ha.
  - destruct (nullish b); reflexivity.
  - rewrite Ha. reflexivity.
Qed.

Lemma entry_props (label duration scale frames : value) :
  prop (VObj [ ("label", label); ("frameDurationMs", duration);
               ("scale", scale); ("frames", frames) ]) "label" = label /\
  prop (VObj [ ("label", label); ("frameDurationMs", duration);
               ("scale", scale); ("frames", frames) ]) "frameDurationMs"
    = duration /\
  prop (VObj [ ("label", label); ("frameDurationMs", duration);
               ("scale", scale); ("frames", frames) ]) "scale" = scale /\
  prop (VObj [ ("label", label); ("frameDurationMs", duration);
               ("scale", scale); ("frames", frames) ]) "frames" = frames.
Proof. repeat split; reflexivity. Qed.

Lemma nullishOr_not_nullish (a b : value) :
  nullish b = false -> nullish (nullishOr a b) = false.
Proof.
  intros Hb. unfold nullishOr. destruct (nullish a) eqn:Ha; assumption.
Qed.

Lemma nullishOr_keep (a b : value) : nullish a = false -> nullishOr a b = a.
Proof. intros Ha. unfold nullishOr. rewrite Ha. reflexivity. Qed.

(** An entry the normaliser stored is normalised to itself, under any
    name. *)
Lemma normalizeEntry_fixed (name name' : string) (animation defaults entry : value) :
  nullish defaults = false ->
  normalizeEntry name animation defaults = Ok entry ->
  normalizeEntry name' entry defaults = Ok entry.
Proof.
  intros Hd He.
  destruct (normalizeEntry_ok _ _ _ _ Hd He) as (f & fs & _ & Hvalid & _ & ->).
  clear He.
  assert (Hlabel : nullish (nullishOr (prop animation "label")
                              (VStr (fallbackLabel name))) = false)
    by (apply nullishOr_not_nullish; reflexivity).
  generalize dependent (nullishOr (prop animation "label")
                          (VStr (fallbackLabel name))).
  intros label Hlabel.
  pose proof (nullishOr_absorb (prop animation "frameDurationMs")
                (prop defaults "frameDurationMs")) as Hduration.
  pose proof (nullishOr_absorb (prop animation "scale")
                (prop defaults "scale")) as Hscale.
  generalize dependent (nullishOr (prop animation "frameDurationMs")
                          (prop defaults "frameDurationMs")).
  intros duration Hduration.
  generalize dependent (nullishOr (prop animation "scale")
                          (prop defaults "scale")).
  intros scale Hscale.
  destruct (entry_props label duration scale (VArr (f :: fs)))
    as (El & Ed & Es & Ef).
  unfold normalizeEntry, resolveFrames.
  rewrite !(get_prop (VObj _)) by reflexivity. cbn [bind].
  rewrite Ef. cbn [Array_isArray bind]. rewrite Hvalid. cbn [negb].
  rewrite coalesce_value. rewrite !(coalesce_get _ _ _ Hd). cbn [bind].
  rewrite El, Ed, Es, Hduration, Hscale, (nullishOr_keep _ _ Hlabel).
  reflexivity.
Qed.

Lemma normalizeEach_fixed (defaults : value) (es : list (string * value)) :
  forall acc : list (string * value),
    NoDup (keys (acc ++ es)) ->
    Forall (fun kv => forall name,
                normalizeEntry name (snd kv) defaults = Ok (snd kv)) es ->
    normalizeEach es defaults acc = Ok (acc ++ es).
Proof.
  induction es as [|[n a] es IH]; intros acc Hnd Hfix; cbn [normalizeEach].
  - rewrite app_nil_r. reflexivity.
  - inversion Hfix as [|? ? Hn Hrest]; subst. cbn [snd] in Hn.
    rewrite (Hn n). cbn [bind].
    assert (Hnew : ~ In n (keys acc)).
    { unfold keys in *. rewrite map_app in Hnd. cbn [map fst] in Hnd.
      apply NoDup_remove_2 in Hnd. intros H. apply Hnd.
      apply in_or_app. left. exact H. }
    rewrite (set_prop_new _ _ _ Hnew).
    rewrite IH; [rewrite <- app_assoc; reflexivity| |exact Hrest].
    rewrite <- app_assoc. exact Hnd.
Qed.

(** X6: normalising is idempotent: a table the normaliser produced
    normalises to itself. *)
Theorem normalizeAnimations_idempotent (data table : value) :
  normalizeAnimations data = Ok table ->
  normalizeAnimations table = Ok table.
Proof.
  intros Hnorm.
  destruct (normalizeAnimations_ok _ _ Hnorm) as (tbl & Hdata & Hrun & _).
  pose proof Hnorm as Hshape. unfold normalizeAnimations in Hshape.
  rewrite !(get_prop _ _ Hdata) in Hshape. cbn [bind] in Hshape.
  unfold Object_entries in Hshape.
  destruct (nullish (prop data "animations")); [discriminate|].
  cbn [bind] in Hshape. fold (configAnimations data) in Hshape.
  rewrite Hrun in Hshape. cbn [bind] in Hshape.
  set (D := mergedDefaults (prop data "defaults")) in *.
  set (T0 := set_prop "animations" (VObj [])
               (set_prop "defaults" D (spread [] (entries data)))) in *.
  injection Hshape as Htable.
  assert (HndT0 : NoDup (keys T0)).
  { unfold T0. apply NoDup_keys_set_prop, NoDup_keys_set_prop,
      NoDup_keys_spread. constructor. }
  assert (HndT : NoDup (keys (set_prop "animations" (VObj tbl) T0)))
    by (apply NoDup_keys_set_prop; exact HndT0).
  assert (Hdef : assoc "defaults" (set_prop "animations" (VObj tbl) T0) = Some D).
  { rewrite assoc_set_prop_other by discriminate. unfold T0.
    rewrite assoc_set_prop_other by discriminate. apply assoc_set_prop_same. }
  assert (Hanim : assoc "animations" (set_prop "animations" (VObj tbl) T0)
                  = Some (VObj tbl)) by apply assoc_set_prop_same.
  assert (Hndtbl : NoDup (keys tbl)).
  { apply (normalizeEach_NoDup _ _ _ _ Hrun). constructor. }
  assert (Hfix : Forall (fun kv => forall name,
                            normalizeEntry name (snd kv) D = Ok (snd kv)) tbl).
  { apply (normalizeEach_values
             (fun v => forall name, normalizeEntry name v D = Ok v)
             D (configAnimations data)) with (table := []);
      [|exact Hrun|constructor].
    intros name animation entry He name'.
    exact (normalizeEntry_fixed name name' animation D entry
             (mergedDefaults_not_nullish _) He). }
  rewrite <- Htable. unfold normalizeAnimations.
  rewrite !get_prop by reflexivity. cbn [bind].
  rewrite !prop_obj, Hdef, Hanim.
  assert (HD : mergedDefaults D = D) by apply mergedDefaults_idempotent.
  rewrite !HD.
  unfold Object_entries. cbn [nullish entries bind].
  rewrite (normalizeEach_fixed D tbl [] Hndtbl Hfix). cbn [app bind].
  rewrite (spread_append _ [] HndT). cbn [app].
  rewrite (set_prop_same_value _ _ _ Hdef).
  rewrite set_prop_twice, set_prop_twice. reflexivity.
Qed.

(** ** Validation and start-up *)

Lemma ObjectLike_iff (v : value) :
  truthy v = true /\ typeof v = "object" <-> ObjectLike v.
Proof.
  unfold ObjectLike. split.
  - intros [Ht Hty]. destruct v; try discriminate.
    + right. eexists. reflexivity.
    + left. eexists. reflexivity.
  - intros [[o ->]|[a ->]]; split; reflexivity.
Qed.

Lemma ObjectLike_dec (v : value) : {ObjectLike v} + {~ ObjectLike v}.
Proof.
  destruct v; try (right; intros [[o H]|[a H]]; discriminate).
  - left. right. eexists. reflexivity.
  - left. left. eexists. reflexivity.
Qed.

Lemma ObjectLike_test (v : value) :
  negb (truthy v) || negb (String.eqb (typeof v) "object") = false
  <-> ObjectLike v.
Proof.
  rewrite <- ObjectLike_iff, orb_false_iff, !negb_false_iff, String.eqb_eq.
  reflexivity.
Qed.

(** X7: [validateAnimations] accepts exactly an object whose
    [animations] is an object or an array and whose [defaults] is absent,
    [null], an object or an array.  Otherwise it throws, for the first of
    the three that is wrong: the data, then [animations], then
    [defaults]; an array as the data is refused for its [animations]. *)
Theorem validateAnimations_accepts (data : value) :
  (validateAnimations data = Ok tt <->
   (exists fields, data = VObj fields) /\
   ObjectLike (prop data "animations") /\
   (prop data "defaults" = VUndefined \/ prop data "defaults" = VNull \/
    ObjectLike (prop data "defaults"))) /\
  (~ ObjectLike data ->
   validateAnimations data = Throw (Error "Animation JSON must be an object.")) /\
  (ObjectLike data -> ~ ObjectLike (prop data "animations") ->
   validateAnimations data
     = Throw (Error "Animation JSON needs an 'animations' object.")) /\
  (forall a, data = VArr a ->
   validateAnimations data
     = Throw (Error "Animation JSON needs an 'animations' object.")) /\
  (ObjectLike data -> ObjectLike (prop data "animations") ->
   prop data "defaults" <> VUndefined -> prop data "defaults" <> VNull ->
   ~ ObjectLike (prop data "defaults") ->
   validateAnimations data
     = Throw (Error "If provided, 'defaults' must be an object.")).
Proof.
  assert (Hfirst : ~ ObjectLike data ->
            validateAnimations data
            = Throw (Error "Animation JSON must be an object.")).
  { intros Hno. unfold validateAnimations.
    destruct (negb (truthy data) || negb (String.eqb (typeof data) "object"))
      eqn:E; [reflexivity|].
    apply ObjectLike_test in E. contradiction. }
  assert (Hsecond : ObjectLike data -> ~ ObjectLike (prop data "animations") ->
            validateAnimations data
            = Throw (Error "Animation JSON needs an 'animations' object.")).
  { intros Hdata Hno. unfold validateAnimations.
    rewrite (proj2 (ObjectLike_test data) Hdata).
    destruct (negb (truthy (prop data "animations")) ||
              negb (String.eqb (typeof (prop data "animations")) "object"))
      eqn:E; [reflexivity|].
    apply ObjectLike_test in E. contradiction. }
  assert (Hdefaults : forall d : value,
            negb (String.eqb (typeof d) "undefined") &&
            negb (String.eqb (typeof d) "object") = false <->
            d = VUndefined \/ d = VNull \/ ObjectLike d).
  { intros d. unfold ObjectLike. destruct d; cbn; split; intros H;
      try discriminate; try reflexivity; auto;
      try (right; right; left; eexists; reflexivity);
      try (right; right; right; eexists; reflexivity);
      repeat match goal with
             | H : _ \/ _ |- _ => destruct H
             | H : exists _, _ |- _ => destruct H
             end; discriminate. }
  assert (Harray : forall a, data = VArr a ->
            validateAnimations data
            = Throw (Error "Animation JSON needs an 'animations' object.")).
  { intros a ->. apply Hsecond; [right; eexists; reflexivity|].
    unfold prop. cbn [entries]. rewrite assoc_animations_indexed. cbn.
    intros [[o H]|[b H]]; discriminate. }
  split; [|split; [exact Hfirst|split; [exact Hsecond|split; [exact Harray|]]]].
  - split.
    + intros Hok.
      destruct (ObjectLike_dec data) as [Hdata|Hdata];
        [|rewrite (Hfirst Hdata) in Hok; discriminate].
      destruct (ObjectLike_dec (prop data "animations")) as [Hanims|Hanims];
        [|rewrite (Hsecond Hdata Hanims) in Hok; discriminate].
      split.
      { destruct Hdata as [Hobj|[a Ha]]; [exact Hobj|].
        rewrite (Harray a Ha) in Hok. discriminate. }
      split; [exact Hanims|].
      unfold validateAnimations in Hok.
      rewrite (proj2 (ObjectLike_test data) Hdata) in Hok.
      rewrite (proj2 (ObjectLike_test _) Hanims) in Hok.
      apply Hdefaults.
      destruct (negb (String.eqb (typeof (prop data "defaults")) "undefined") &&
                negb (String.eqb (typeof (prop data "defaults")) "object"));
        [discriminate|reflexivity].
    + intros ([fields ->] & Hanims & Hdef).
      unfold validateAnimations.
      rewrite (proj2 (ObjectLike_test (VObj fields)))
        by (left; eexists; reflexivity).
      rewrite (proj2 (ObjectLike_test _) Hanims).
      rewrite (proj2 (Hdefaults _) Hdef). reflexivity.
  - intros Hdata Hanims Hu Hn Hno. unfold validateAnimations.
    rewrite (proj2 (ObjectLike_test data) Hdata).
    rewrite (proj2 (ObjectLike_test _) Hanims).
    destruct (negb (String.eqb (typeof (prop data "defaults")) "undefined") &&
              negb (String.eqb (typeof (prop data "defaults")) "object")) eqn:E;
      [reflexivity|].
    apply Hdefaults in E. destruct E as [E|[E|E]]; contradiction.
Qed.






(** ** More on the playback clock *)






(** ** The frame to paint *)

Lemma to_uint_not_Nil (n : nat) : Nat.to_uint n <> Decimal.Nil.
Proof.
  rewrite <- (DecimalNat.Unsigned.of_to n), DecimalNat.Unsigned.to_of.
  apply DecimalFacts.unorm_nonnil.
Qed.

Lemma index_key_inj (i j : nat) : index_key i = index_key j -> i = j.
Proof.
  unfold index_key. intros H.
  apply (f_equal NilZero.uint_of_string) in H.
  rewrite !NilZero.usu in H by apply to_uint_not_Nil.
  injection H as H. exact (DecimalNat.Unsigned.to_uint_inj _ _ H).
Qed.

Lemma assoc_indexed (A : Type) (l : list A) (b i : nat) :
  assoc (index_key (b + i)) (indexed b l) = nth_error l i.
Proof.
  revert b i. induction l as [|x l IH]; intros b i; cbn [indexed assoc].
  - destruct i; reflexivity.
  - destruct i as [|i].
    + rewrite Nat.add_0_r, String.eqb_refl. reflexivity.
    + destruct (String.eqb (index_key (b + S i)) (index_key b)) eqn:E.
      * apply String.eqb_eq, index_key_inj in E. lia.
      * replace (b + S i)%nat with (S b + i)%nat by lia. apply IH.
Qed.

(** Reading an element of an array by its index. *)
Lemma prop_array_index (l : list value) (i : nat) :
  (i < List.length l)%nat ->
  prop (VArr l) (index_key i) = nth i l VUndefined.
Proof.
  intros Hi. unfold prop. cbn [entries].
  change (index_key i) with (index_key (0 + i)).
  rewrite (assoc_indexed value l 0 i).
  destruct (nth_error l i) as [x|] eqn:E.
  - symmetry. apply nth_error_nth. exact E.
  - apply nth_error_None in E. lia.
Qed.

Lemma getCurrentFrame_in_range (animation : value) (l : list value)
  (st : State) (z : Z) :
  prop animation "frames" = VArr l ->
  IntegerValue (VNum (frameIndex st)) z ->
  (0 <= z < Z.of_nat (List.length l))%Z ->
  getCurrentFrame animation st = Ok (nth (Z.to_nat z) l VUndefined).
Proof.
  intros Hframes (q & Hq & Hz) Hr. injection Hq as Hq.
  unfold getCurrentFrame.
  rewrite get_prop by (apply prop_defined_not_nullish with (k := "frames");
                       rewrite Hframes; discriminate).
  cbn [bind]. rewrite Hframes. rewrite get_prop by reflexivity.
  cbn [bind]. rewrite prop_length_array.
  assert (Hnpos : (0 < inject_Z (Z.of_nat (List.length l)))%Q).
  { change 0%Q with (inject_Z 0). rewrite <- Zlt_Qlt. lia. }
  unfold num_of_nat, num_of_Z. cbn [truthy ToNumber].
  rewrite q_is_zero_false by lra. cbn [negb].
  rewrite Hq. cbn [num_rem]. rewrite q_is_zero_false by lra.
  assert (Hq0 : (0 <= q)%Q).
  { rewrite Hz. change 0%Q with (inject_Z 0). rewrite <- Zle_Qle. lia. }
  assert (Hqn : (q < inject_Z (Z.of_nat (List.length l)))%Q).
  { rewrite Hz. rewrite <- Zlt_Qlt. lia. }
  rewrite (Qtrunc_quotient q (inject_Z (Z.of_nat (List.length l))) 0);
    [|exact Hnpos|lia
     |change (inject_Z 0) with 0%Q; lra
     |change (inject_Z (0 + 1)) with 1%Q; lra].
  set (q' := (q - inject_Z (Z.of_nat (List.length l)) * inject_Z 0)%Q).
  assert (Hq' : (q' == inject_Z z)%Q).
  { unfold q'. change (inject_Z 0) with 0%Q. rewrite <- Hz. ring. }
  unfold get_at. cbn [ToPropertyKey].
  rewrite (proj2 (q_is_integer_spec q')) by (exists z; exact Hq').
  assert (Hle : Qle_bool 0 q' = true) by (apply Qle_bool_iff; lra).
  rewrite Hle. cbn [andb].
  rewrite (Qfloor_comp _ _ Hq'), Qfloor_Z.
  rewrite get_prop by reflexivity.
  rewrite prop_array_index by lia. reflexivity.
Qed.

Lemma normalized_entry_rects (data table : value) (key : string)
  (entry : value) :
  normalizeAnimations data = Ok table ->
  tableEntry table key = Some entry ->
  exists (f : value) (fs : list value),
    prop entry "frames" = VArr (f :: fs) /\
    Forall ValidRect (f :: fs).
Proof.
  intros Hnorm Hentry.
  destruct (normalizeAnimations_ok _ _ Hnorm) as (tbl & _ & Hrun & Htbl & _).
  unfold tableEntry in Hentry. rewrite Htbl in Hentry. cbn [entries] in Hentry.
  apply (assoc_values
           (fun v => exists f fs, prop v "frames" = VArr (f :: fs) /\
                                  Forall ValidRect (f :: fs))
           key entry tbl); [|exact Hentry].
  apply (normalizeEach_values
           (fun v => exists f fs, prop v "frames" = VArr (f :: fs) /\
                                  Forall ValidRect (f :: fs))
           (mergedDefaults (prop data "defaults")) (configAnimations data))
    with (table := []); [|exact Hrun|constructor].
  intros name animation entry0 He.
  destruct (normalizeEntry_ok _ _ _ _ (mergedDefaults_not_nullish _) He)
    as (f & fs & _ & Hvalid & _ & ->).
  exists f, fs. split; [reflexivity|].
  apply forallb_isValidFrame. exact Hvalid.
Qed.

(** X12: once an animation of a normalised table is selected, with a
    positive finite duration, then after every run of draws over finite
    non-negative elapsed times the frame [draw] picks to paint is the
    frame of the entry at the frame index, and it is a rectangle: finite
    coordinates, positive width and height. *)
Theorem painted_frame_is_valid (data : value) (st st0 st' : State)
  (key : string) (entry : value) (d : Q) (deltas : list number) :
  normalizeAnimations data = Ok (animations st) ->
  setAnimation (VStr key) st = Ok st0 ->
  tableEntry (animations st) key = Some entry ->
  prop entry "frameDurationMs" = VNum (Finite d) ->
  (0 < d)%Q ->
  Forall elapsed deltas ->
  advances st0 deltas st' ->
  exists (frames : list value) (z : Z) (frame : value),
    prop entry "frames" = VArr frames /\
    IntegerValue (VNum (frameIndex st')) z /\
    (0 <= z < Z.of_nat (List.length frames))%Z /\
    getCurrentFrame entry st' = Ok frame /\
    frame = nth (Z.to_nat z) frames VUndefined /\
    ValidRect frame.
Proof.
  intros Hnorm Hset Hentry Hd Hpos Hdeltas Hrun.
  destruct (normalized_entry_rects _ _ _ _ Hnorm Hentry)
    as (f & fs & Hframes & Hrects).
  destruct (tableEntry_lookup _ _ _ Hentry) as (Htruthy & Hget & Hlookup).
  unfold setAnimation in Hset. rewrite Htruthy in Hset. cbn [negb] in Hset.
  rewrite Hget in Hset. cbn [bind] in Hset.
  rewrite Hlookup in Hset. cbn [bind] in Hset.
  rewrite (prop_array_truthy entry _ _ Hframes) in Hset. cbn [negb] in Hset.
  injection Hset as <-.
  match type of Hrun with
  | advances ?s deltas _ => set (sel := s) in *
  end.
  destruct (advances_invariant entry (f :: fs) d (animations st) (VStr key)
              deltas Hd Hframes Hpos Hdeltas sel eq_refl eq_refl)
    as [_ Hinv].
  - intros s Hs Hk. apply (activeAnimation_entry s key entry Hk).
    rewrite Hs. exact Hentry.
  - exists 0%Z. split; [|cbn [List.length]; lia].
    exists (inject_Z 0). split; reflexivity.
  - exists (inject_Z 0). reflexivity.
  - destruct (Hinv st' Hrun) as (z & Hz & Hr).
    exists (f :: fs), z, (nth (Z.to_nat z) (f :: fs) VUndefined).
    split; [exact Hframes|]. split; [exact Hz|]. split; [exact Hr|].
    split; [exact (getCurrentFrame_in_range entry (f :: fs) st' z Hframes Hz Hr)|].
    split; [reflexivity|].
    rewrite Forall_forall in Hrects. apply Hrects. apply nth_In. lia.
Qed.

(** ** Selection again, and the render loop by timestamps *)

(** X13: in a state whose table is absent or normalised, [setAnimation]
    never throws, whatever the key: it returns the state unchanged or the
    selection of the key; it keeps the table and the last timestamp, and
    selecting the same key again changes nothing more. *)
Theorem setAnimation_total (st : State) (key : value) :
  (animations st = VNull \/
   exists data, normalizeAnimations data = Ok (animations st)) ->
  (setAnimation key st = Ok st \/ setAnimation key st = Ok (selected key st)) /\
  (forall st1,
      setAnimation key st = Ok st1 ->
      animations st1 = animations st /\
      lastTimestamp st1 = lastTimestamp st /\
      setAnimation key st1 = Ok st1).
Proof.
  intros [Hnull|[data Hnorm]].
  - assert (Hset : forall s, animations s = VNull -> setAnimation key s = Ok s).
    { intros s Hs. unfold setAnimation. rewrite Hs. reflexivity. }
    split; [left; exact (Hset st Hnull)|].
    intros st1 H1. rewrite (Hset st Hnull) in H1. injection H1 as <-.
    split; [reflexivity|]. split; [reflexivity|]. exact (Hset st Hnull).
  - destruct (normalizeAnimations_ok _ _ Hnorm)
      as (tbl & _ & _ & Htbl & _ & Htruthy).
    assert (Hnn : nullish (animations st) = false)
      by (destruct (animations st); try discriminate; reflexivity).
    assert (Hset : forall s,
               animations s = animations st ->
               setAnimation key s =
               Ok (if truthy (prop (VObj tbl) (ToPropertyKey key))
                   then selected key s else s)).
    { intros s Hs. unfold setAnimation. rewrite Hs, Htruthy. cbn [negb].
      rewrite (get_prop _ _ Hnn). cbn [bind]. rewrite Htbl.
      unfold get_at. rewrite get_prop by reflexivity. cbn [bind].
      destruct (truthy (prop (VObj tbl) (ToPropertyKey key)));
        cbn [negb]; [|reflexivity].
      unfold selected. rewrite Hs. reflexivity. }
    split.
    + rewrite (Hset st eq_refl).
      destruct (truthy (prop (VObj tbl) (ToPropertyKey key))); auto.
    + intros st1 H1. rewrite (Hset st eq_refl) in H1. injection H1 as <-.
      destruct (truthy (prop (VObj tbl) (ToPropertyKey key))).
      * split; [reflexivity|]. split; [reflexivity|].
        rewrite (Hset (selected key st) eq_refl). reflexivity.
      * split; [reflexivity|]. split; [reflexivity|].
        rewrite (Hset st eq_refl). reflexivity.
Qed.





(** ** The controls *)

Lemma makeButtons_ok (es : list (string * value)) :
  Forall (fun kv => truthy (snd kv) = true) es ->
  makeButtons es =
  Ok (map (fun kv => makeButton (or_else (prop (snd kv) "label")
                                          (VStr (fst kv))) (fst kv)) es).
Proof.
  induction 1 as [|[k v] es Hv Hes IH]; cbn [makeButtons map fst snd].
  - reflexivity.
  - cbn [snd] in Hv.
    rewrite get_prop by (destruct v; try discriminate; reflexivity).
    cbn [bind]. rewrite IH. reflexivity.
Qed.

Lemma buildControls_normalized (data : value) (st : State) (page : Page) :
  normalizeAnimations data = Ok (animations st) ->
  buildControls st page =
  Ok {| controls :=
          map (fun kv => makeButton (or_else (prop (snd kv) "label")
                                             (VStr (fst kv))) (fst kv))
              (entries (prop (animations st) "animations"));
        status := status page |}.
Proof.
  intros Hnorm.
  destruct (normalizeAnimations_ok _ _ Hnorm)
    as (tbl & _ & Hrun & Htbl & _ & Htruthy).
  unfold buildControls.
  rewrite get_prop by (destruct (animations st); try discriminate; reflexivity).
  cbn [bind]. rewrite Htbl. unfold Object_entries. cbn [nullish entries bind].
  rewrite makeButtons_ok; [reflexivity|].
  apply (normalizeEach_truthy _ _ _ _ Hrun). constructor.
Qed.



(** X16: no button is dead: the key of every button [buildControls]
    makes on a normalised table selects its animation, in any state that
    holds this table. *)
Theorem every_button_selects (data : value) (st st1 : State) (page page' : Page)
  (button : Button) :
  normalizeAnimations data = Ok (animations st) ->
  buildControls st page = Ok page' ->
  In button (controls page') ->
  animations st1 = animations st ->
  tableEntry (animations st) (datasetAnimation button) <> None /\
  setAnimation (VStr (datasetAnimation button)) st1
    = Ok (selected (VStr (datasetAnimation button)) st1).
Proof.
  intros Hnorm Hbuild Hin Hsame.
  rewrite (buildControls_normalized data st page Hnorm) in Hbuild.
  injection Hbuild as <-. cbn [controls] in Hin.
  apply in_map_iff in Hin. destruct Hin as ([k entry] & <- & Hin).
  cbn [datasetAnimation makeButton fst snd].
  destruct (normalizeAnimations_ok _ _ Hnorm) as (tbl & _ & Hrun & Htbl & _).
  assert (Hkey : In k (keys (entries (prop (animations st) "animations")))).
  { unfold keys. apply in_map_iff. exists (k, entry). split; [reflexivity|exact Hin]. }
  apply tableEntry_keys in Hkey. split; [exact Hkey|].
  destruct (tableEntry (animations st) k) as [e|] eqn:He; [|contradiction].
  pose proof (normalized_entries_truthy _ _ _ _ Hnorm He) as Het.
  destruct (tableEntry_lookup _ _ _ He) as (Htruthy & Hget & Hlookup).
  unfold setAnimation. rewrite Hsame, Htruthy, Hget. cbn [negb bind].
  rewrite Hlookup. cbn [bind]. rewrite Het. cbn [negb].
  unfold selected. rewrite Hsame. reflexivity.
Qed.


(** ** The picture *)



End Program.

(** ** The claims at concrete configs *)








Lemma invalid_grid_rejected_witness :
  ~ ValidGrid zeroCountAnimation
      (mergedDefaults VUndefined) /\
  normalizeAnimations noStringToNumber noToStringValue zeroCountConfig
    = Throw (Error "Animation 'bad' needs either a non-empty 'frames' array or valid row/frameCount data.").
Proof.
  assert (Hinvalid : ~ ValidGrid
                       zeroCountAnimation (mergedDefaults VUndefined)).
  { intros H.
    apply (gridRefused_false_iff noStringToNumber noToStringValue) in H.
    vm_compute in H. discriminate H. }
  split; [exact Hinvalid|].
  destruct (invalid_grid_rejected noStringToNumber noToStringValue
              zeroCountConfig "bad" zeroCountAnimation
              [("run", VObj [("frames", VArr [rect32])])] [])
    as (_ & _ & _ & _ & Hthrow).
  - reflexivity.
  - reflexivity.
  - reflexivity.
  - exact Hinvalid.
  - apply Hthrow. constructor; [|constructor].
    eexists. vm_compute. reflexivity.
Defined.

(** A row that is not an integer is refused as well. *)
Example half_row_rejected :
  buildFramesFromRow noStringToNumber noToStringValue halfRowAnimation
    (mergedDefaults VUndefined) = Ok VNull /\
  normalizeEntry noStringToNumber noToStringValue "half" halfRowAnimation
    (mergedDefaults VUndefined)
    = Throw (Error "Animation 'half' needs either a non-empty 'frames' array or valid row/frameCount data.").
Proof. split; vm_compute; reflexivity. Qed.




(** The start-up on two animations: the default animation when the config
    names one, the first key declared when it does not. *)
Example init_selects_default :
  activeAnimationKey
    (fst (init noStringToNumber noToStringValue idleWalkConfig initialState))
  = VStr "idle" /\
  snd (init noStringToNumber noToStringValue idleWalkConfig initialState)
  = Ok tt.
Proof. split; vm_compute; reflexivity. Qed.

Example init_selects_first_key :
  activeAnimationKey
    (fst (init noStringToNumber noToStringValue walkIdleConfig initialState))
  = VStr "walk" /\
  snd (init noStringToNumber noToStringValue walkIdleConfig initialState)
  = Ok tt.
Proof. split; vm_compute; reflexivity. Qed.

(** ** Further properties at concrete configs *)

Local Abbreviation walkState :=
  (fst (init noStringToNumber noToStringValue walkConfig initialState)).
Local Abbreviation walkIdleState :=
  (fst (init noStringToNumber noToStringValue walkIdleConfig initialState)).
Local Abbreviation idleWalkState :=
  (fst (init noStringToNumber noToStringValue idleWalkConfig initialState)).
Local Abbreviation walkFrames :=
  (Array_from 4
     (gridFrame noStringToNumber noToStringValue walkAnimation
        (mergedDefaults VUndefined))).
Local Abbreviation walkEntry :=
  (VObj [ ("label", VStr "Walk");
          ("frameDurationMs", vnum 100);
          ("scale", vnum 4);
          ("frames", VArr walkFrames) ]).

Lemma normalized_frames_valid_witness :
  exists (entry f : value) (fs : list value),
    tableEntry (animations walkState) "walk" = Some entry /\
    prop entry "frames" = VArr (f :: fs) /\
    Forall ValidRect (f :: fs).
Proof.
  eexists.
  destruct (normalized_frames_valid noStringToNumber noToStringValue
              walkConfig (animations walkState) "walk" _ eq_refl eq_refl)
    as (f & fs & Hframes & Hrects).
  exists f, fs. split; [reflexivity|]. split; assumption.
Defined.

Lemma invalid_frame_rejected_witness :
  ~ ValidRect flatRect /\
  normalizeAnimations noStringToNumber noToStringValue flatFrameConfig
    = Throw (Error "Animation 'run' has invalid frame data.").
Proof.
  assert (Hflat : ~ ValidRect flatRect).
  { intros (x & y & w & h & _ & _ & Hw & _ & Hwpos & _).
    vm_compute in Hw. injection Hw as <-. exact (Qlt_irrefl 0 Hwpos). }
  split; [exact Hflat|].
  destruct (invalid_frame_rejected noStringToNumber noToStringValue
              flatFrameConfig "run" (VObj [("frames", VArr [flatRect])])
              [] [] [flatRect] flatRect)
    as (_ & _ & _ & Hthrow).
  - reflexivity.
  - reflexivity.
  - left. reflexivity.
  - exact Hflat.
  - apply Hthrow. constructor.
Defined.



Lemma normalized_keeps_fields_witness :
  prop (animations idleWalkState) "defaultAnimation" = VStr "idle".
Proof.
  rewrite (normalized_keeps_fields noStringToNumber noToStringValue
             (entries idleWalkConfig) (animations idleWalkState)
             "defaultAnimation").
  - reflexivity.
  - reflexivity.
  - simpl. repeat constructor; simpl; intuition discriminate.
  - discriminate.
  - discriminate.
Defined.

Lemma normalizeAnimations_idempotent_witness :
  normalizeAnimations noStringToNumber noToStringValue (animations walkState)
  = Ok (animations walkState).
Proof.
  apply (normalizeAnimations_idempotent noStringToNumber noToStringValue
           walkConfig).
  reflexivity.
Defined.




Lemma painted_frame_is_valid_witness :
  (0 < 100)%Q /\
  exists st' frame,
    advances noStringToNumber noToStringValue
      (selected (VStr "walk") walkState) [Finite 250] st' /\
    ValidRect frame.
Proof.
  split; [reflexivity|].
  assert (Hrun : exists st',
             advances noStringToNumber noToStringValue
               (selected (VStr "walk") walkState) [Finite 250] st').
  { eexists. eapply advances_cons with (fuel := 3%nat).
    - vm_compute. reflexivity.
    - apply advances_nil. }
  destruct Hrun as [st' Hrun]. exists st'.
  destruct (painted_frame_is_valid noStringToNumber noToStringValue
              walkConfig walkState (selected (VStr "walk") walkState) st'
              "walk" walkEntry 100 [Finite 250])
    as (frames & z & frame & _ & _ & _ & _ & _ & Hrect).
  - reflexivity.
  - vm_compute. reflexivity.
  - vm_compute. reflexivity.
  - reflexivity.
  - reflexivity.
  - repeat constructor. exists 250%Q. split; [reflexivity|discriminate].
  - exact Hrun.
  - exists frame. split; [exact Hrun|exact Hrect].
Defined.

Lemma setAnimation_total_witness :
  setAnimation noToStringValue (VNum (num_of_Z 7)) walkState = Ok walkState \/
  setAnimation noToStringValue (VNum (num_of_Z 7)) walkState
  = Ok (selected (VNum (num_of_Z 7)) walkState).
Proof.
  apply (setAnimation_total noStringToNumber noToStringValue walkState
           (VNum (num_of_Z 7))).
  right. exists walkConfig. reflexivity.
Defined.



Lemma every_button_selects_witness :
  setAnimation noToStringValue (VStr "idle") walkIdleState
  = Ok (selected (VStr "idle") walkIdleState).
Proof.
  refine (proj2 (every_button_selects noStringToNumber noToStringValue
                   walkIdleConfig walkIdleState walkIdleState
                   {| controls := []; status := "" |} _
                   {| textContent := "Idle"; datasetAnimation := "idle";
                      isActive := false |} _ _ _ _)).
  - reflexivity.
  - vm_compute. reflexivity.
  - simpl. right. left. reflexivity.
  - reflexivity.
Defined.



